(** * pdf-signer: the credential vault and the signing pipeline

    A shallow embedding of [src/main/index.ts]: the envelope cipher
    ([encryptData], [decryptData]), the master-key manager
    ([getOrGenerateMasterKey]), the three [auth:*] IPC handlers, the
    [sign-pdf] and [read-file-buffer] handlers; and of the renderer
    ([App.vue], [main.ts]): the similarity of file names, the position
    history and its recall, the font size and the locale.

    The Node, Electron and PDF libraries the file calls are not part of the
    repository.  They appear here as interfaces (type classes); what is
    assumed of them is stated as named contracts, and every contract is
    shown satisfiable by the instances of [Module Mock]. *)

From Stdlib Require Import ZArith String Ascii Lia PrimFloat.
From stdpp Require Import base gmap strings list.

Local Open Scope Z_scope.

(** ** Buffers and thrown errors *)

(** A Node [Buffer] is a list of bytes; a byte is a [Z] in [0, 256). *)
Abbreviation Buffer := (list Z).

Definition is_bytes (b : Buffer) : Prop := Forall (fun x => 0 <= x < 256) b.

(** [buf.subarray(start, end)] and [buf.subarray(start)] for constant,
    non-negative bounds: both clamp to the length of the buffer. *)
Definition subarray (s e : nat) (buf : Buffer) : Buffer := take (e - s) (drop s buf).
Definition subarray_from (s : nat) (buf : Buffer) : Buffer := drop s buf.

(** A thrown JavaScript error: its [name] and its [message]. *)
Record JsError := mkError { err_name : string; err_message : string }.

Definition Error (msg : string) : JsError := mkError "Error" msg.
Definition TypeError (msg : string) : JsError := mkError "TypeError" msg.

(** A call that may throw: [inl e] is [throw e], [inr a] a normal return. *)
Definition result (A : Type) : Type := JsError + A.

Definition failed {A} (r : result A) : Prop := exists e, r = inl e.

Definition rbind {A B} (m : result A) (k : A -> result B) : result B :=
  match m with
  | inl e => inl e
  | inr a => k a
  end.

(** ** The host: file system, secret store, entropy *)

Record world := World {
  files : gmap string Buffer;        (* path -> content *)
  write_denied : gset string;        (* paths that cannot be opened for writing *)
  encryptionAvailable : bool;        (* safeStorage.isEncryptionAvailable() *)
  entropy : nat -> Z;                (* the bytes crypto.randomBytes will draw *)
  userData : string;                 (* app.getPath('userData') *)
  remove_denied : gset string        (* paths that fs.unlinkSync refuses to remove *)
}.

(** Code that runs against the host: state is kept when an error is thrown. *)
Definition IO (A : Type) : Type := world -> result A * world.

Definition ret {A} (a : A) : IO A := fun w => (inr a, w).
Definition throw {A} (e : JsError) : IO A := fun w => (inl e, w).
Definition lift {A} (r : result A) : IO A := fun w => (r, w).

Definition bind {A B} (m : IO A) (k : A -> IO B) : IO B :=
  fun w => match m w with
           | (inl e, w1) => (inl e, w1)
           | (inr a, w1) => k a w1
           end.

(** [try { body } catch (e) { handler e }] *)
Definition try_catch {A} (body : IO A) (handler : JsError -> IO A) : IO A :=
  fun w => match body w with
           | (inl e, w1) => handler e w1
           | (inr a, w1) => (inr a, w1)
           end.

Notation "'let*' x ':=' m 'in' k" := (bind m (fun x => k))
  (at level 10, x name, m at level 100, k at level 200).
Notation "'do' m 'then' k" := (bind m (fun _ => k))
  (at level 10, m at level 100, k at level 200).

(** [path.join(dir, name)] for a plain file name. *)
Definition join (dir name : string) : string := dir +:+ "/" +:+ name.

Definition key_path (w : world) : string := join (userData w) "master.key.enc".
Definition data_path (w : world) : string := join (userData w) "user-data.bin".

Definition getKeyPath : IO string := fun w => (inr (key_path w), w).
Definition getDataPath : IO string := fun w => (inr (data_path w), w).

Definition isEncryptionAvailable : IO bool := fun w => (inr (encryptionAvailable w), w).

Definition existsSync (p : string) : IO bool :=
  fun w => (inr (bool_decide (is_Some (files w !! p))), w).

Definition readFileSync (p : string) : IO Buffer :=
  fun w => match files w !! p with
           | Some b => (inr b, w)
           | None => (inl (Error ("ENOENT: no such file or directory, open '" +:+ p +:+ "'")), w)
           end.

Definition set_files (f : gmap string Buffer) (w : world) : world :=
  World f (write_denied w) (encryptionAvailable w) (entropy w) (userData w)
        (remove_denied w).

Definition writeFileSync (p : string) (b : Buffer) : IO unit :=
  fun w => if bool_decide (p ∈ write_denied w)
           then (inl (Error ("EACCES: permission denied, open '" +:+ p +:+ "'")), w)
           else (inr tt, set_files (<[p := b]> (files w)) w).


(** [crypto.randomBytes(n)]: the next [n] bytes of the entropy stream. *)
Definition randomBytes (n : nat) : IO Buffer :=
  fun w => (inr (map (fun i => entropy w i mod 256) (seq 0 n)),
            World (files w) (write_denied w) (encryptionAvailable w)
                  (fun i => entropy w (n + i)%nat) (userData w) (remove_denied w)).

(** ** Library interfaces *)

(** [crypto.createCipheriv('aes-256-gcm', key, iv)] with [update], [final]
    and [getAuthTag], taken as one call from key, IV and plaintext to
    ciphertext and tag; [createDecipheriv] with [setAuthTag], [update] and
    [final] as one call that throws when [final] rejects the tag. *)
Class Aead := {
  gcm_encrypt : Buffer -> Buffer -> Buffer -> result (Buffer * Buffer);
  gcm_decrypt : Buffer -> Buffer -> Buffer -> Buffer -> result Buffer
}.

(** The encodings of Node's [Buffer]. *)
Class BufferCodec := {
  utf8_encode : string -> Buffer;      (* Buffer.from(s, 'utf8') *)
  utf8_decode : Buffer -> string;      (* buf.toString('utf8') *)
  base64_encode : Buffer -> string;    (* buf.toString('base64') *)
  base64_decode : string -> Buffer     (* Buffer.from(s, 'base64') *)
}.

(** [JSON.stringify] and [JSON.parse] over the values they exchange. *)
Class JsonCodec := {
  json : Type;
  JSON_stringify : json -> string;
  JSON_parse : string -> result json
}.

(** Electron's [safeStorage]. *)
Class SafeStorage := {
  encryptString : string -> result Buffer;
  decryptString : Buffer -> result string
}.

(** ** EnvelopeCipher *)

Section EnvelopeCipher.
Context `{Aead, BufferCodec, JsonCodec}.

Definition encryptData (masterKey : Buffer) (jsonData : json) : IO Buffer :=
  let* iv := randomBytes 16 in
  let jsonStr := JSON_stringify jsonData in
  let* sealed := lift (gcm_encrypt masterKey iv (utf8_encode jsonStr)) in
  let '(encrypted, authTag) := sealed in
  ret (iv ++ authTag ++ encrypted).

(** The three [subarray] calls that open [decryptData]. *)
Definition split_envelope (fileBuffer : Buffer) : Buffer * Buffer * Buffer :=
  (subarray 0 16 fileBuffer, subarray 16 32 fileBuffer, subarray_from 32 fileBuffer).

Definition decryptData (masterKey : Buffer) (fileBuffer : Buffer) : result json :=
  let '(iv, authTag, encrypted) := split_envelope fileBuffer in
  rbind (gcm_decrypt masterKey iv authTag encrypted) (fun decrypted =>
  JSON_parse (utf8_decode decrypted)).

End EnvelopeCipher.

(** ** MasterKeyManager *)

Section MasterKeyManager.
Context `{BufferCodec, SafeStorage}.

(** The body of the first [try] of [getOrGenerateMasterKey]. *)
Definition readStoredKey (keyPath : string) : IO Buffer :=
  let* encryptedKey := readFileSync keyPath in
  let* base64Key := lift (decryptString encryptedKey) in
  let keyBuffer := base64_decode base64Key in
  if bool_decide (length keyBuffer <> 32%nat)
  then throw (Error "Invalid key len")
  else ret keyBuffer.

(** The body of the second [try]. *)
Definition storeNewKey (keyPath : string) (newKey : Buffer) : IO Buffer :=
  let keyString := base64_encode newKey in
  let* encryptedKey := lift (encryptString keyString) in
  do writeFileSync keyPath encryptedKey then
  ret newKey.

(** The block [if (fs.existsSync(keyPath)) { try { ... } catch { ... } }];
    [None] when it falls through to the generation of a new key. *)
Definition loadStoredKey (keyPath : string) : IO (option Buffer) :=
  let* present := existsSync keyPath in
  if present
  then try_catch (let* keyBuffer := readStoredKey keyPath in ret (Some keyBuffer))
                 (fun _ => ret None)
  else ret None.

(** The generation of a new key; [None] is the [null] of its [catch]. *)
Definition generateKey (keyPath : string) : IO (option Buffer) :=
  let* newKey := randomBytes 32 in
  try_catch (let* k := storeNewKey keyPath newKey in ret (Some k))
            (fun _ => ret None).

(** [None] is the [null] the function returns. *)
Definition getOrGenerateMasterKey : IO (option Buffer) :=
  let* available := isEncryptionAvailable in
  if negb available then ret None else
  let* keyPath := getKeyPath in
  let* stored := loadStoredKey keyPath in
  match stored with
  | Some keyBuffer => ret (Some keyBuffer)
  | None => generateKey keyPath
  end.

End MasterKeyManager.

(** ** CredentialVault: the [auth:*] handlers *)

Section CredentialVault.
Context `{Aead, BufferCodec, JsonCodec, SafeStorage}.

(** [auth:save-credentials] *)
Definition save_credentials (data : json) : IO bool :=
  let* masterKey := getOrGenerateMasterKey in
  match masterKey with
  | None => ret false
  | Some key =>
      try_catch
        (let* encryptedBuffer := encryptData key data in
         let* dataPath := getDataPath in
         do writeFileSync dataPath encryptedBuffer then
         ret true)
        (fun _ => ret false)
  end.

(** [auth:load-credentials]; [None] is the handler's [null]. *)
Definition load_credentials : IO (option json) :=
  let* dataPath := getDataPath in
  let* present := existsSync dataPath in
  if negb present then ret None else
  let* masterKey := getOrGenerateMasterKey in
  match masterKey with
  | None => ret None
  | Some key =>
      try_catch
        (let* fileBuffer := readFileSync dataPath in
         let* data := lift (decryptData key fileBuffer) in
         ret (Some data))
        (fun _ => ret None)
  end.


End CredentialVault.

(** ** SigningPipeline: the [sign-pdf] handler *)

(** The arguments the handler destructures.  An optional field that is
    absent is represented by the falsy value of its type (the empty string,
    [NaN]); [pageIndex] is the integer used as array index. *)
Record SignArgs := {
  filePath : string;
  certPath : string;
  password : string;
  pageIndex : Z;
  x : float;
  y : float;
  width : float;
  height : float;
  text : string;
  fontSize : float;
  dateText : string
}.

Record TextOptions (F : Type) := {
  opt_x : float;
  opt_y : float;
  opt_size : float;
  opt_font : F;
  opt_color : float * float * float;
  opt_maxWidth : float
}.
Arguments Build_TextOptions {F}.

Record PlaceholderOptions := {
  pdfBuffer : Buffer;
  reason : string;
  location : string;
  signatureLength : Z;
  name : string;
  contactInfo : string
}.

(** pdf-lib and @signpdf.  A page belongs to its document, so drawing on a
    page is an update of the document. *)
Class PdfToolkit := {
  PDFDocument : Type;
  PDFPage : Type;
  PDFFont : Type;
  PDFDocument_load : Buffer -> result PDFDocument;
  getPages : PDFDocument -> list PDFPage;
  getSize : PDFPage -> float * float;          (* width, height *)
  embedFont : string -> PDFDocument -> result (PDFFont * PDFDocument);
  drawText : PDFPage -> string -> TextOptions PDFFont -> PDFDocument -> result PDFDocument;
  save : PDFDocument -> result Buffer;         (* useObjectStreams: false *)
  plainAddPlaceholder : PlaceholderOptions -> result Buffer;
  signpdf_sign : Buffer -> Buffer -> string -> result Buffer  (* P12Signer + SignPdf.sign *)
}.

(** [pages[i]]: [None] is [undefined]. *)
Definition array_get {A} (l : list A) (i : Z) : option A :=
  if 0 <=? i then l !! Z.to_nat i else None.

(** [s || d] on strings and [n || d] on numbers. *)
Definition str_or (s d : string) : string := if bool_decide (s = "") then d else s.
Definition number_falsy (n : float) : bool :=
  (PrimFloat.eqb n 0 || negb (PrimFloat.eqb n n))%bool.
Definition num_or (n d : float) : float := if number_falsy n then d else n.

(** The message V8 gives the [TypeError] of [page.getSize()] on [undefined]. *)
Definition undefined_getSize : string :=
  "Cannot read properties of undefined (reading 'getSize')".

(** The regular expression [/(\.pdf)$/i] matches where exactly the four
    characters [.pdf], in either case, remain. *)
Definition is_dot_pdf (s : string) : bool :=
  match s with
  | String c0 (String c1 (String c2 (String c3 EmptyString))) =>
      (Ascii.eqb c0 "." && (Ascii.eqb c1 "p" || Ascii.eqb c1 "P")
       && (Ascii.eqb c2 "d" || Ascii.eqb c2 "D")
       && (Ascii.eqb c3 "f" || Ascii.eqb c3 "F"))%bool
  | _ => false
  end.

(** [filePath.replace(/(\.pdf)$/i, '_signed.pdf')] *)
Fixpoint replace_pdf_suffix (s : string) : string :=
  if is_dot_pdf s then "_signed.pdf"
  else match s with
       | EmptyString => EmptyString
       | String c r => String c (replace_pdf_suffix r)
       end.

Inductive SignResult :=
  | SignSuccess (path : string)       (* { success: true, path } *)
  | SignFailure (error : string).     (* { success: false, error } *)

Section SigningPipeline.
Context `{PdfToolkit}.

Local Open Scope float_scope.

(** The two branches that draw the label. *)
Definition drawLabel (args : SignArgs) (page : PDFPage) (font : PDFFont)
    (pdfY : float) (pdfDoc : PDFDocument) : result PDFDocument :=
  let signatureName := str_or (text args) "Digitally Signed" in
  let signatureDate := str_or (dateText args) "" in
  let nameSize := num_or (fontSize args) 14 in
  let centerY := pdfY + height args / 2 in
  if bool_decide (signatureDate <> ""%string) then
    let dateSize := nameSize * 0.75 in
    let lineHeight := nameSize * 0x1.3333333333333p+0 in   (* 1.2 *)
    let totalBlockHeight := nameSize + dateSize + 2 in
    let startY := centerY + totalBlockHeight / 4 in
    rbind (drawText page signatureName
             (Build_TextOptions (x args + 2) startY nameSize font (0, 0, 0) (width args - 4))
             pdfDoc) (fun pdfDoc =>
    drawText page signatureDate
      (Build_TextOptions (x args + 2) (startY - lineHeight) dateSize font (0, 0, 0) (width args - 4))
      pdfDoc)
  else
    drawText page signatureName
      (Build_TextOptions (x args + 2) (centerY - nameSize / 3) nameSize font (0, 0, 0) (width args - 4))
      pdfDoc.

(** The body of the handler's [try]. *)
Definition sign_pdf_try (args : SignArgs) : IO string :=
  let* pdfBuffer := readFileSync (filePath args) in
  let* pdfDoc := lift (PDFDocument_load pdfBuffer) in
  let pages := getPages pdfDoc in
  let* page := lift (match array_get pages (pageIndex args) with
                     | Some page => inr page
                     | None => inl (TypeError undefined_getSize)
                     end) in
  let pdfPageHeight := snd (getSize page) in
  let pdfY := pdfPageHeight - y args - height args in
  let* embedded := lift (embedFont "Helvetica" pdfDoc) in
  let '(font, pdfDoc) := embedded in
  let* pdfDoc := lift (drawLabel args page font pdfY pdfDoc) in
  let* modifiedPdfBuffer := lift (save pdfDoc) in
  let* pdfWithPlaceholder :=
    lift (plainAddPlaceholder
            {| pdfBuffer := modifiedPdfBuffer; reason := "Digitally Signed";
               location := "Electron App"; signatureLength := 16192%Z;
               name := "Signature"; contactInfo := "contactInfo" |}) in
  let* certPresent := existsSync (certPath args) in
  do (if negb certPresent then throw (Error "Certificate file not found") else ret tt) then
  let* p12Buffer := readFileSync (certPath args) in
  let* signedPdf := lift (signpdf_sign pdfWithPlaceholder p12Buffer (str_or (password args) "")) in
  let outputPath := replace_pdf_suffix (filePath args) in
  do writeFileSync outputPath signedPdf then
  ret outputPath.

(** The handler from its [try] on, over the destructured fields:
    [try { ... } catch (error) { ... }]. *)
Definition sign_pdf (args : SignArgs) : IO SignResult :=
  try_catch
    (let* outputPath := sign_pdf_try args in ret (SignSuccess outputPath))
    (fun error => ret (SignFailure (str_or (err_message error) "Unknown error"))).

End SigningPipeline.

(** ** The document stages of the pipeline *)

Section DocumentStages.
Context `{PdfToolkit}.

Local Open Scope float_scope.

(** Lines 154 to 210 of the handler on their own: from the bytes of the
    document to the bytes that carry the label and the signature
    placeholder.  No step of it touches the host. *)
Definition placeholder_stage (args : SignArgs) (pdfBuffer : Buffer) : result Buffer :=
  rbind (PDFDocument_load pdfBuffer) (fun pdfDoc =>
  let pages := getPages pdfDoc in
  rbind (match array_get pages (pageIndex args) with
         | Some page => inr page
         | None => inl (TypeError undefined_getSize)
         end) (fun page =>
  let pdfPageHeight := snd (getSize page) in
  let pdfY := pdfPageHeight - y args - height args in
  rbind (embedFont "Helvetica" pdfDoc) (fun embedded =>
  let '(font, pdfDoc) := embedded in
  rbind (drawLabel args page font pdfY pdfDoc) (fun pdfDoc =>
  rbind (save pdfDoc) (fun modifiedPdfBuffer =>
  plainAddPlaceholder
    {| pdfBuffer := modifiedPdfBuffer; reason := "Digitally Signed";
       location := "Electron App"; signatureLength := 16192%Z;
       name := "Signature"; contactInfo := "contactInfo" |}))))).

End DocumentStages.

(** ** The [sign-pdf] handler as it is invoked *)

(** What the IPC layer hands to the handler as [args]: the caller's
    object, or [undefined] or [null] when the caller passed none. *)
Inductive HandlerArgs :=
  | ArgsUndefined
  | ArgsNull
  | ArgsObject (args : SignArgs).

(** [const { filePath, certPath, ... } = args], which stands before the
    [try]: V8 throws a [TypeError] on [undefined] and on [null]. *)
Definition destructure (args : HandlerArgs) : result SignArgs :=
  match args with
  | ArgsUndefined =>
      inl (TypeError "Cannot destructure property 'filePath' of 'args' as it is undefined.")
  | ArgsNull =>
      inl (TypeError "Cannot destructure property 'filePath' of 'args' as it is null.")
  | ArgsObject args => inr args
  end.

Section SignPdfHandler.
Context `{PdfToolkit}.

(** The whole handler: the destructuring, then the [try] and its [catch].
    [inl] is a rejected invocation. *)
Definition sign_pdf_handler (args : HandlerArgs) : IO SignResult :=
  let* fields := lift (destructure args) in
  sign_pdf fields.

End SignPdfHandler.

(** ** The [read-file-buffer] handler *)

(** [try { return fs.readFileSync(filePath) } catch (e) { ...; throw e }]:
    the error is logged and thrown again, so the invocation rejects. *)
Definition read_file_buffer (path : string) : IO Buffer :=
  try_catch (readFileSync path) (fun e => throw e).

(** ** Tampering *)

(** [flip_bit i buf] inverts bit [i mod 8] of byte [i / 8] of [buf]. *)
Definition flip_byte (j : nat) (b : Z) : Z := Z.lxor b (Z.shiftl 1 (Z.of_nat j)).

Fixpoint flip_bit (i : nat) (buf : Buffer) : Buffer :=
  match buf with
  | [] => []
  | b :: rest =>
      if (i <? 8)%nat then flip_byte i b :: rest
      else b :: flip_bit (i - 8) rest
  end.

(** ** What is assumed of the libraries *)

(** AES-256-GCM under a 32-byte key and a 16-byte IV: encryption succeeds,
    the tag has the default 16 bytes, and decryption under the same key, IV
    and tag gives the plaintext back. *)
Definition aead_correct `{Aead} : Prop :=
  forall key iv pt, length key = 32%nat -> length iv = 16%nat ->
    exists ct tag, gcm_encrypt key iv pt = inr (ct, tag)
      /\ length tag = 16%nat
      /\ gcm_decrypt key iv tag ct = inr pt.

(** GCM is a counter mode: plaintext and ciphertext have the same length. *)
Definition aead_length_preserving `{Aead} : Prop :=
  forall key iv tag ct pt, gcm_decrypt key iv tag ct = inr pt -> length pt = length ct.

(** [final()] throws when one bit of the IV, of the tag or of the ciphertext
    of a sealed message has been inverted. *)
Definition aead_tamper_evident `{Aead} : Prop :=
  forall key iv pt ct tag (i : nat), gcm_encrypt key iv pt = inr (ct, tag) ->
    ((i < 8 * length iv)%nat -> failed (gcm_decrypt key (flip_bit i iv) tag ct))
    /\ ((i < 8 * length tag)%nat -> failed (gcm_decrypt key iv (flip_bit i tag) ct))
    /\ ((i < 8 * length ct)%nat -> failed (gcm_decrypt key iv tag (flip_bit i ct))).

(** The text [JSON.stringify] produces survives the UTF-8 encoding, and
    [JSON.parse] reads it back as the value it was produced from. *)
Definition json_roundtrip `{BufferCodec, JsonCodec} : Prop :=
  forall v : json,
    utf8_decode (utf8_encode (JSON_stringify v)) = JSON_stringify v
    /\ JSON_parse (JSON_stringify v) = inr v.

(** [JSON.parse('')] throws a [SyntaxError]; the empty buffer decodes to
    the empty string. *)
Definition json_rejects_empty `{BufferCodec, JsonCodec} : Prop :=
  utf8_decode [] = ""%string /\ failed (JSON_parse "").

(** Base64 decoding inverts base64 encoding, and [safeStorage] unwraps what
    it wrapped. *)
Definition key_wrap_roundtrip `{BufferCodec, SafeStorage} : Prop :=
  (forall b, is_bytes b -> base64_decode (base64_encode b) = b)
  /\ (forall s, exists blob, encryptString s = inr blob /\ decryptString blob = inr s).

(** ** A mock host *)

Module Mock.

Definition bytes_of_string (s : string) : Buffer :=
  map (fun a => Z.of_N (N_of_ascii a)) (list_ascii_of_string s).
Definition string_of_bytes (b : Buffer) : string :=
  string_of_list_ascii (map (fun z => ascii_of_N (Z.to_N z)) b).

#[local] Instance codec : BufferCodec := {|
  utf8_encode := bytes_of_string;
  utf8_decode := string_of_bytes;
  base64_encode := string_of_bytes;
  base64_decode := bytes_of_string
|}.

(** A cipher that xors every byte with the first key byte and
    authenticates with the parity of IV and plaintext. *)
Definition xor_sum (b : Buffer) : Z := foldr Z.lxor 0 b.
Definition xor_key (key b : Buffer) : Buffer := map (Z.lxor (hd 0 key)) b.
Definition mac (iv pt : Buffer) : Buffer :=
  Z.lxor (xor_sum iv) (xor_sum pt) :: replicate 15 0.

Definition seal (key iv pt : Buffer) : result (Buffer * Buffer) :=
  if bool_decide (length key <> 32%nat) then inl (Error "Invalid key length")
  else if bool_decide (iv = []) then inl (Error "Invalid initialization vector")
  else inr (xor_key key pt, mac iv pt).

Definition unseal (key iv tag ct : Buffer) : result Buffer :=
  if bool_decide (length key <> 32%nat) then inl (Error "Invalid key length")
  else if bool_decide (iv = []) then inl (Error "Invalid initialization vector")
  else if bool_decide (tag = mac iv (xor_key key ct)) then inr (xor_key key ct)
  else inl (Error "Unsupported state or unable to authenticate data").

#[local] Instance aead : Aead := {| gcm_encrypt := seal; gcm_decrypt := unseal |}.

(** JSON restricted to one kind of value: a string [s], written [=s]. *)
Definition parse_text (s : string) : result string :=
  match s with
  | String "=" v => inr v
  | _ => inl (mkError "SyntaxError" "Unexpected end of JSON input")
  end.

#[local] Instance json_codec : JsonCodec := {|
  json := string;
  JSON_stringify := String "=";
  JSON_parse := parse_text
|}.

Definition value (s : string) : @json json_codec := s.

(** A secret store that marks its blobs with the prefix [v10]. *)
Definition wrap (s : string) : result Buffer := inr (118 :: 49 :: 48 :: bytes_of_string s).
Definition unwrap (b : Buffer) : result string :=
  match b with
  | 118 :: 49 :: 48 :: body => inr (string_of_bytes body)
  | _ => inl (Error "Error while decrypting the ciphertext provided to safeStorage.decryptString.")
  end.

#[local] Instance safe_storage : SafeStorage := {| encryptString := wrap; decryptString := unwrap |}.

(** A PDF toolkit whose documents are byte strings with a single page. *)
Definition pdf_magic : Buffer := [37; 80; 68; 70].   (* %PDF *)

Definition load (b : Buffer) : result Buffer :=
  if bool_decide (take 4 b = pdf_magic) then inr b
  else inl (Error "Failed to parse PDF document").

Definition sign (pdf p12 : Buffer) (passphrase : string) : result Buffer :=
  if bool_decide (passphrase = "test") then inr (pdf ++ p12)
  else inl (Error "PKCS#12 MAC could not be verified. Invalid password?").

#[local] Instance toolkit : PdfToolkit := {|
  PDFDocument := Buffer;
  PDFPage := nat;
  PDFFont := unit;
  PDFDocument_load := load;
  getPages := fun _ => [0%nat];
  getSize := fun _ => (612, 792)%float;
  embedFont := fun _ doc => inr (tt, doc);
  drawText := fun _ s _ doc => inr (doc ++ bytes_of_string s);
  save := fun doc => inr doc;
  plainAddPlaceholder := fun o => inr (pdfBuffer o ++ [0; 0; 0; 0]);
  signpdf_sign := sign
|}.

Definition home : string := "/home/u/.config/pdf-signer".

Definition document : Buffer := pdf_magic ++ [45; 49; 46; 55].   (* %PDF-1.7 *)

(** A host with the same document under three names and one certificate
    bundle, and no vault yet. *)
Definition fresh : world := {|
  files := {[ "/docs/a.pdf" := document;
              "/docs/A.PDF" := document;
              "/docs/contract" := document;
              "/docs/id.p12" := [48; 130; 9] ]};
  write_denied := ∅;
  encryptionAvailable := true;
  entropy := fun i => Z.of_nat i;
  userData := home;
  remove_denied := ∅
|}.

(** A request to sign page [page] of the document at [path]. *)
Definition request (path : string) (page : Z) : SignArgs := {|
  filePath := path;
  certPath := "/docs/id.p12";
  password := "test";
  pageIndex := page;
  x := 50; y := 50; width := 200; height := 70;
  text := "Signature";
  fontSize := 14;
  dateText := "2024-01-01 10:00"
|}.

(** What the toolkit makes of [document] for such a request. *)
Definition signed_document : Buffer :=
  document ++ bytes_of_string "Signature"
    ++ bytes_of_string "2024-01-01 10:00" ++ [0; 0; 0; 0] ++ [48; 130; 9].

Definition key0 : Buffer := map Z.of_nat (seq 1 32).

(** The wrapped form of [key0], and the envelope of the record [pw] under
    [key0] with the first sixteen bytes of [fresh]'s entropy as nonce. *)
Definition wrapped_key0 : Buffer := 118 :: 49 :: 48 :: key0.
Definition envelope0 : Buffer :=
  map Z.of_nat (seq 0 16) ++ (58 :: replicate 15 0) ++ [60; 113; 118].

Definition with_vault (vault : Buffer) (available : bool) : world := {|
  files := <[ home +:+ "/user-data.bin" := vault ]>
             (<[ home +:+ "/master.key.enc" := wrapped_key0 ]> (files fresh));
  write_denied := ∅;
  encryptionAvailable := available;
  entropy := fun i => Z.of_nat i;
  userData := home;
  remove_denied := ∅
|}.

(** A host that has saved [pw]; the same with one bit of the vault file
    inverted; the same with the secret store gone. *)
Definition enrolled : world := with_vault envelope0 true.
Definition tampered : world := with_vault (flip_bit 0 envelope0) true.
Definition no_keyring : world := with_vault envelope0 false.


(** [request] with another certificate path and passphrase. *)
Definition request_with (path cert passphrase : string) (page : Z) : SignArgs := {|
  filePath := path;
  certPath := cert;
  password := passphrase;
  pageIndex := page;
  x := 50; y := 50; width := 200; height := 70;
  text := "Signature";
  fontSize := 14;
  dateText := "2024-01-01 10:00"
|}.

(** [enrolled] with a wrapped-key file that does not unwrap, and [fresh]
    with a wrapped-key path that cannot be written. *)
Definition corrupted : world := {|
  files := <[ home +:+ "/master.key.enc" := [1; 2; 3] ]> (files enrolled);
  write_denied := ∅;
  encryptionAvailable := true;
  entropy := fun i => Z.of_nat i;
  userData := home;
  remove_denied := ∅
|}.

Definition read_only : world := {|
  files := files fresh;
  write_denied := {[ home +:+ "/master.key.enc" ]};
  encryptionAvailable := true;
  entropy := fun i => Z.of_nat i;
  userData := home;
  remove_denied := ∅
|}.

End Mock.

(** * The renderer

    The script of the window ([App.vue]) and its entry point ([main.ts]):
    the similarity of file names, the position history, the recall of a
    position, the font size and the locale. *)

Module Renderer.

Local Open Scope nat_scope.

(** ** [levenshteinDistance]

    A string is the list of its code units.  The matrix is an array of
    rows; a row is an array whose cells are numbers or holes ([None]).
    [None] as the outcome of a step stands for everything that is not a
    number: the [TypeError] of indexing a row that does not exist, or the
    [undefined] (and then [NaN]) read from a hole or past the end. *)

Section Similarity.
Context {A : Type} `{EqDecision A}.

(** [row[j] = v] *)
Definition row_set (row : list (option nat)) (j v : nat) : list (option nat) :=
  if j <? length row then <[j := Some v]> row
  else row ++ replicate (j - length row) None ++ [Some v].

(** [matrix[i][j]] and [matrix[i][j] = v] *)
Definition matrix_get (matrix : list (list (option nat))) (i j : nat) : option nat :=
  row ← matrix !! i; cell ← row !! j; cell.

Definition matrix_set (matrix : list (list (option nat))) (i j v : nat)
    : option (list (list (option nat))) :=
  row ← matrix !! i; Some (<[i := row_set row j v]> matrix).

(** [Array.from({ length: n + 1 }, (_, i) => [i])] *)
Definition init_matrix (n : nat) : list (list (option nat)) :=
  map (fun i => [Some i]) (seq 0 (S n)).

(** [for (let k = lo; k <= hi; k++) body] over a state *)
Definition for_loop {St} (lo hi : nat) (body : nat -> St -> option St) (s : St)
    : option St :=
  foldl (fun acc k => acc ≫= body k) (Some s) (seq lo (S hi - lo)).

Definition levenshteinDistance (a b : list A) : option nat :=
  let matrix := init_matrix (length a) in
  matrix ← for_loop 1 (length b) (fun j matrix => matrix_set matrix 0 j j) matrix;
  matrix ← for_loop 1 (length a) (fun i matrix =>
    for_loop 1 (length b) (fun j matrix =>
      let cost := if decide (a !! (i - 1) = b !! (j - 1)) then 0 else 1 in
      up ← matrix_get matrix (i - 1) j;
      left ← matrix_get matrix i (j - 1);
      diagonal ← matrix_get matrix (i - 1) (j - 1);
      matrix_set matrix i j (Nat.min (up + 1) (Nat.min (left + 1) (diagonal + cost))))
      matrix) matrix;
  matrix_get matrix (length a) (length b).

(** The edit distance as a recursion on first characters: the reference
    the matrix is compared to, cell [i, j] against the reversed prefixes of
    lengths [i] and [j]. *)
Fixpoint lev (a b : list A) {struct a} : nat :=
  match a with
  | [] => length b
  | x :: a' =>
      (fix lev_row (b : list A) : nat :=
         match b with
         | [] => length a
         | y :: b' =>
             Nat.min (lev a' b + 1)
               (Nat.min (lev_row b' + 1)
                  (lev a' b' + if decide (x = y) then 0 else 1))
         end) b
  end.

(** A length as a JavaScript number. *)
Fixpoint float_of_positive (p : positive) : float :=
  match p with
  | xH => 1
  | xO q => 2 * float_of_positive q
  | xI q => 2 * float_of_positive q + 1
  end%float.

Definition float_of_nat (n : nat) : float :=
  match N.of_nat n with
  | N0 => 0%float
  | Npos p => float_of_positive p
  end.

(** [None] is a [NaN] score. *)
Definition getSimilarity (str1 str2 : list A) : option float :=
  let longer := if length str2 <? length str1 then str1 else str2 in
  if length longer =? 0 then Some 1%float else
  distance ← levenshteinDistance str1 str2;
  Some ((float_of_nat (length longer) - float_of_nat distance)
        / float_of_nat (length longer))%float.

End Similarity.

(** ** The position history *)

Record Box := { x : float; y : float; w : float; h : float }.

(** An entry of [doc-history].  An entry without a name is one whose name
    is the empty string: the code treats the two alike. *)
Record Entry := { name : string; box : Box; page : Z }.

Definition is_separator (c : ascii) : bool :=
  (Ascii.eqb c "/" || Ascii.eqb c "\")%bool.

Fixpoint has_separator (s : string) : bool :=
  match s with
  | EmptyString => false
  | String c r => (is_separator c || has_separator r)%bool
  end.

(** [path.split(/[/\\]/).pop()]: what follows the last separator. *)
Fixpoint fileNameOf (path : string) : string :=
  match path with
  | EmptyString => EmptyString
  | String c r => if has_separator path then fileNameOf r else path
  end.

(** The update of the history in [signDocument], after a success. *)
Definition remember (history : list Entry) (fileName : string) (current : Box)
    (activePageIndex : Z) : list Entry :=
  let history := filter (fun entry => name entry <> fileName) history in
  let history :=
    history ++ [{| name := fileName; box := current; page := activePageIndex |}] in
  if 50 <? length history then tail history else history.

Definition saveToHistory (pdfPath : string) (history : list Entry) (current : Box)
    (activePageIndex : Z) : list Entry :=
  let fileName := fileNameOf pdfPath in
  if bool_decide (fileName = ""%string) then history
  else remember history fileName current activePageIndex.

(** ** The recall of a position in [loadPdf] *)

Record View := { position : Box; activePage : Z }.

Definition defaultBox : Box := {| x := 50; y := 50; w := 200; h := 70 |}.

(** The loop over the history: the best entry so far and its score. *)
Definition betterMatch (currentFileName : string) (best : option Entry * float)
    (entry : Entry) : option Entry * float :=
  if bool_decide (name entry = ""%string) then best else
  match getSimilarity (list_ascii_of_string (name entry))
                      (list_ascii_of_string currentFileName) with
  | Some score => if PrimFloat.ltb (snd best) score then (Some entry, score) else best
  | None => best
  end.

Definition bestMatch (history : list Entry) (currentFileName : string)
    : option Entry * float :=
  foldl (betterMatch currentFileName) (None, 0%float) history.

(** The second half of [loadPdf].  [history] is [None] when [doc-history]
    is not stored or does not parse; the page index has been reset to 0 by
    the first half. *)
Definition recallPosition (history : option (list Entry)) (path : string)
    (totalPages : Z) (current : Box) : View :=
  let unchanged := {| position := current; activePage := 0 |} in
  let currentFileName := fileNameOf path in
  if bool_decide (currentFileName = ""%string) then unchanged else
  match history with
  | None => unchanged
  | Some history =>
      match bestMatch history currentFileName with
      | (Some entry, highestScore) =>
          if PrimFloat.ltb 0x1.999999999999ap-1 highestScore   (* 0.8 *)
          then {| position := box entry;
                  activePage := if (page entry <? totalPages)%Z then page entry else 0 |}
          else {| position := defaultBox; activePage := 0 |}
      | (None, _) => {| position := defaultBox; activePage := 0 |}
      end
  end.

(** ** Font size and locale *)

Definition changeFontSize (delta fontSize : float) : float :=
  let newSize := (fontSize + delta)%float in
  if (PrimFloat.leb 8 newSize && PrimFloat.leb newSize 72)%bool then newSize
  else fontSize.

(** [navigator.language.split('-')[0]] *)
Fixpoint first_segment (language : string) : string :=
  match language with
  | EmptyString => EmptyString
  | String c r => if Ascii.eqb c "-" then EmptyString else String c (first_segment r)
  end.

(** The locales for which [locales.ts] defines messages. *)
Definition messages_locales : list string := ["en"; "cs"; "de"]%string.

Definition defaultLocale (language : string) : string :=
  let systemLocale := first_segment language in
  if bool_decide (systemLocale ∈ ["en"; "cs"; "de"]%string) then systemLocale
  else "en"%string.

End Renderer.

(** * Properties *)

(** ** The IO monad *)

Lemma bind_run {A B} (m : IO A) (k : A -> IO B) w a w1 :
  m w = (inr a, w1) -> bind m k w = k a w1.
Proof. intros Hm. unfold bind. by rewrite Hm. Qed.

Lemma bind_throw {A B} (m : IO A) (k : A -> IO B) w e w1 :
  m w = (inl e, w1) -> bind m k w = (inl e, w1).
Proof. intros Hm. unfold bind. by rewrite Hm. Qed.

Lemma randomBytes_run n w :
  exists bytes w1, randomBytes n w = (inr bytes, w1)
    /\ length bytes = n /\ is_bytes bytes
    /\ files w1 = files w /\ write_denied w1 = write_denied w
    /\ encryptionAvailable w1 = encryptionAvailable w /\ userData w1 = userData w.
Proof.
  eexists _, _. split; [reflexivity|]. simpl.
  rewrite length_map, length_seq. repeat split.
  apply Forall_forall. intros z Hz. apply list_elem_of_In, in_map_iff in Hz.
  destruct Hz as (i & <- & _). apply Z.mod_pos_bound. lia.
Qed.

(** ** The envelope layout *)

Lemma split_envelope_sealed (iv tag ct : Buffer) :
  length iv = 16%nat -> length tag = 16%nat ->
  split_envelope (iv ++ tag ++ ct) = (iv, tag, ct).
Proof.
  intros Hiv Htag. unfold split_envelope, subarray, subarray_from.
  change (16 - 0)%nat with 16%nat. change (32 - 16)%nat with 16%nat.
  rewrite drop_0.
  rewrite (take_app_length' iv) by done.
  rewrite (drop_app_length' iv) by done.
  rewrite (take_app_length' tag) by done.
  replace 32%nat with (length iv + 16)%nat by lia.
  rewrite drop_app_add, (drop_app_length' tag) by done.
  reflexivity.
Qed.

Lemma split_envelope_short (buf : Buffer) :
  (length buf <= 32)%nat -> snd (split_envelope buf) = [].
Proof. intros Hlen. unfold split_envelope, subarray_from, snd. by apply drop_ge. Qed.

Lemma flip_bit_length i (buf : Buffer) : length (flip_bit i buf) = length buf.
Proof.
  revert i. induction buf as [|b rest IH]; intros i; simpl; [done|].
  destruct (i <? 8)%nat; simpl; [done|]. by rewrite IH.
Qed.

Lemma flip_bit_app_l i (a b : Buffer) :
  (i < 8 * length a)%nat -> flip_bit i (a ++ b) = flip_bit i a ++ b.
Proof.
  revert i. induction a as [|z a IH]; intros i Hi; simpl in *; [lia|].
  destruct (i <? 8)%nat eqn:E; [done|].
  apply Nat.ltb_ge in E. rewrite IH by lia. done.
Qed.

Lemma flip_bit_app_r i (a b : Buffer) :
  (8 * length a <= i)%nat -> flip_bit i (a ++ b) = a ++ flip_bit (i - 8 * length a) b.
Proof.
  revert i. induction a as [|z a IH]; intros i Hi; simpl in *.
  - by rewrite Nat.sub_0_r.
  - destruct (i <? 8)%nat eqn:E; [apply Nat.ltb_lt in E; lia|].
    rewrite IH by lia. do 3 f_equal. lia.
Qed.

Section EnvelopeFacts.
Context `{Aead, BufferCodec, JsonCodec}.

(** What a run of [encryptData] under a 32-byte key produces. *)
Lemma encryptData_run key (p : json) w :
  aead_correct -> length key = 32%nat ->
  exists iv tag ct w1,
    encryptData key p w = (inr (iv ++ tag ++ ct), w1)
    /\ randomBytes 16 w = (inr iv, w1)
    /\ length iv = 16%nat /\ length tag = 16%nat
    /\ gcm_encrypt key iv (utf8_encode (JSON_stringify p)) = inr (ct, tag)
    /\ gcm_decrypt key iv tag ct = inr (utf8_encode (JSON_stringify p)).
Proof.
  intros Hok Hkey.
  destruct (randomBytes_run 16 w) as (iv & w1 & Hrand & Hiv & _).
  destruct (Hok key iv (utf8_encode (JSON_stringify p)) Hkey Hiv)
    as (ct & tag & Henc & Htag & Hdec).
  exists iv, tag, ct, w1. repeat split; try done.
  unfold encryptData. rewrite (bind_run _ _ _ _ _ Hrand).
  unfold bind, lift, ret. by rewrite Henc.
Qed.

Lemma decryptData_sealed key (p : json) iv tag ct :
  json_roundtrip ->
  length iv = 16%nat -> length tag = 16%nat ->
  gcm_decrypt key iv tag ct = inr (utf8_encode (JSON_stringify p)) ->
  decryptData key (iv ++ tag ++ ct) = inr p.
Proof.
  intros Hjson Hiv Htag Hdec.
  unfold decryptData. rewrite split_envelope_sealed by done.
  rewrite Hdec. simpl. by destruct (Hjson p) as [-> ->].
Qed.

(** C1: under a 32-byte key, [decryptData] applied to the envelope that
    [encryptData] produced returns the record that was encrypted. *)
Theorem decryptData_encryptData key (p : json) w :
  aead_correct -> json_roundtrip -> length key = 32%nat ->
  exists envelope w1,
    encryptData key p w = (inr envelope, w1)
    /\ decryptData key envelope = inr p.
Proof.
  intros Hok Hjson Hkey.
  destruct (encryptData_run key p w Hok Hkey)
    as (iv & tag & ct & w1 & Hrun & _ & Hiv & Htag & _ & Hdec).
  exists (iv ++ tag ++ ct), w1. split; [done|].
  by apply decryptData_sealed.
Qed.

(** C2, as the code has it: the envelope is a 16-byte nonce, then the
    16-byte tag, then the ciphertext, and [decryptData] cuts it at byte 16
    and at byte 32, which gives these three parts back. *)
Theorem envelope_layout key (p : json) w :
  aead_correct -> length key = 32%nat ->
  exists nonce tag ct w1,
    encryptData key p w = (inr (nonce ++ tag ++ ct), w1)
    /\ length nonce = 16%nat /\ length tag = 16%nat
    /\ gcm_encrypt key nonce (utf8_encode (JSON_stringify p)) = inr (ct, tag)
    /\ split_envelope (nonce ++ tag ++ ct) = (nonce, tag, ct)
    /\ forall buf, split_envelope buf = (take 16 buf, take 16 (drop 16 buf), drop 32 buf).
Proof.
  intros Hok Hkey.
  destruct (encryptData_run key p w Hok Hkey)
    as (iv & tag & ct & w1 & Hrun & _ & Hiv & Htag & Henc & _).
  exists iv, tag, ct, w1. repeat split; try done.
  by apply split_envelope_sealed.
Qed.

Lemma decryptData_short key (buf : Buffer) :
  aead_length_preserving -> json_rejects_empty ->
  (length buf <= 32)%nat -> failed (decryptData key buf).
Proof.
  intros Hlen [Hutf [e He]] Hshort. unfold decryptData.
  pose proof (split_envelope_short buf Hshort) as Hct.
  destruct (split_envelope buf) as [[iv tag] ct]. simpl in Hct. subst ct.
  destruct (gcm_decrypt key iv tag []) as [e'|pt] eqn:Hdec; simpl.
  - by exists e'.
  - apply Hlen in Hdec. destruct pt; [|done].
    rewrite Hutf, He. by exists e.
Qed.

(** C3: inverting any one bit of a stored envelope, in the nonce, the tag or
    the ciphertext, makes [decryptData] throw; so does any envelope of at
    most 32 bytes, whose ciphertext part is empty. *)
Theorem decryptData_tampered key (p : json) w envelope w1 :
  aead_correct -> aead_tamper_evident ->
  aead_length_preserving -> json_rejects_empty ->
  length key = 32%nat ->
  encryptData key p w = (inr envelope, w1) ->
  (forall i, (i < 8 * length envelope)%nat ->
     failed (decryptData key (flip_bit i envelope)))
  /\ (forall short, (length short <= 32)%nat -> failed (decryptData key short)).
Proof.
  intros Hok Htamper Hlen Hempty Hkey Hrun.
  split; [|intros short; by apply decryptData_short].
  destruct (encryptData_run key p w Hok Hkey)
    as (iv & tag & ct & w2 & Hrun' & _ & Hiv & Htag & Henc & _).
  rewrite Hrun in Hrun'. injection Hrun' as -> ->.
  intros i Hi.
  assert (Hfail : forall iv' tag' ct',
    length iv' = 16%nat -> length tag' = 16%nat ->
    failed (gcm_decrypt key iv' tag' ct') ->
    failed (decryptData key (iv' ++ tag' ++ ct'))).
  { intros iv' tag' ct' Hiv' Htag' [e He]. unfold decryptData.
    rewrite split_envelope_sealed by done. rewrite He. by exists e. }
  rewrite !length_app in Hi.
  destruct (decide (i < 8 * length iv)%nat) as [Hlt|Hge].
  - rewrite flip_bit_app_l by done.
    apply Hfail; [by rewrite flip_bit_length|done|].
    by apply (Htamper key iv _ ct tag i Henc).
  - rewrite flip_bit_app_r by lia.
    destruct (decide (i - 8 * length iv < 8 * length tag)%nat) as [Hlt'|Hge'].
    + rewrite flip_bit_app_l by done.
      apply Hfail; [done|by rewrite flip_bit_length|].
      by apply (Htamper key iv _ ct tag _ Henc).
    + rewrite flip_bit_app_r by lia.
      apply Hfail; [done|done|].
      apply (Htamper key iv _ ct tag _ Henc). lia.
Qed.

End EnvelopeFacts.

(** ** The mock host meets the contracts *)

Section MockFacts.
#[local] Existing Instances Mock.aead Mock.codec Mock.json_codec Mock.safe_storage.

Lemma string_of_bytes_of_string s : Mock.string_of_bytes (Mock.bytes_of_string s) = s.
Proof.
  unfold Mock.string_of_bytes, Mock.bytes_of_string.
  rewrite <- (string_of_list_ascii_of_string s) at 2. f_equal.
  induction (list_ascii_of_string s) as [|a l IH]; simpl; [done|].
  by rewrite N2Z.id, ascii_N_embedding, IH.
Qed.

Lemma bytes_of_string_of_bytes b :
  is_bytes b -> Mock.bytes_of_string (Mock.string_of_bytes b) = b.
Proof.
  unfold Mock.string_of_bytes, Mock.bytes_of_string. intros Hb.
  rewrite list_ascii_of_string_of_list_ascii.
  induction Hb as [|z l Hz _ IH]; simpl; [done|].
  rewrite N_ascii_embedding by lia. rewrite Z2N.id by lia. by rewrite IH.
Qed.

Lemma xor_key_involutive key b : Mock.xor_key key (Mock.xor_key key b) = b.
Proof.
  unfold Mock.xor_key. induction b as [|z b IH]; simpl; [done|].
  by rewrite <- Z.lxor_assoc, Z.lxor_nilpotent, Z.lxor_0_l, IH.
Qed.

Lemma xor_key_flip_bit key i b :
  Mock.xor_key key (flip_bit i b) = flip_bit i (Mock.xor_key key b).
Proof.
  unfold Mock.xor_key. revert i. induction b as [|z b IH]; intros i; simpl; [done|].
  destruct (i <? 8)%nat; simpl.
  - unfold flip_byte. by rewrite Z.lxor_assoc.
  - by rewrite IH.
Qed.

Lemma xor_sum_flip_bit i b :
  (i < 8 * length b)%nat ->
  exists j, Mock.xor_sum (flip_bit i b)
            = Z.lxor (Mock.xor_sum b) (Z.shiftl 1 (Z.of_nat j)).
Proof.
  revert i. induction b as [|z b IH]; intros i Hi; simpl in *; [lia|].
  destruct (i <? 8)%nat eqn:E; simpl.
  - exists i. unfold flip_byte.
    rewrite !Z.lxor_assoc. f_equal. apply Z.lxor_comm.
  - apply Nat.ltb_ge in E. destruct (IH (i - 8)%nat) as [j Hj]; [lia|].
    exists j. by rewrite Hj, Z.lxor_assoc.
Qed.

Lemma lxor_bit_changes a j : Z.lxor a (Z.shiftl 1 (Z.of_nat j)) <> a.
Proof.
  intros E. apply (f_equal (fun z => Z.testbit z (Z.of_nat j))) in E.
  rewrite Z.lxor_spec, Z.shiftl_spec, Z.sub_diag in E by lia.
  change (Z.testbit 1 0) with true in E. by destruct (Z.testbit a (Z.of_nat j)).
Qed.

Lemma flip_bit_changes_sum i b :
  (i < 8 * length b)%nat -> Mock.xor_sum (flip_bit i b) <> Mock.xor_sum b.
Proof.
  intros Hi. destruct (xor_sum_flip_bit i b Hi) as [j ->]. apply lxor_bit_changes.
Qed.

Lemma mock_seal_inv key iv pt ct tag :
  Mock.seal key iv pt = inr (ct, tag) ->
  length key = 32%nat /\ iv <> [] /\ ct = Mock.xor_key key pt /\ tag = Mock.mac iv pt.
Proof.
  unfold Mock.seal. repeat case_bool_decide; intros E; try discriminate.
  injection E as <- <-. repeat split; try done.
Qed.

Lemma mock_unseal_rejects key iv tag ct :
  tag <> Mock.mac iv (Mock.xor_key key ct) -> failed (Mock.unseal key iv tag ct).
Proof.
  intros Hne. unfold Mock.unseal, failed. repeat case_bool_decide; eauto. done.
Qed.

Lemma mock_aead_correct : aead_correct.
Proof.
  intros key iv pt Hkey Hiv. exists (Mock.xor_key key pt), (Mock.mac iv pt).
  assert (iv <> []) by (intros ->; discriminate).
  simpl. unfold Mock.seal, Mock.unseal. rewrite xor_key_involutive.
  repeat case_bool_decide; try done.
Qed.

Lemma mock_aead_length_preserving : aead_length_preserving.
Proof.
  intros key iv tag ct pt. simpl. unfold Mock.unseal.
  repeat case_bool_decide; intros E; try discriminate.
  injection E as <-. unfold Mock.xor_key. by rewrite length_map.
Qed.

Lemma mock_aead_tamper_evident : aead_tamper_evident.
Proof.
  intros key iv pt ct tag i Hseal. simpl in *.
  apply mock_seal_inv in Hseal as (Hkey & Hiv & -> & ->).
  repeat split; intros Hi; apply mock_unseal_rejects.
  - rewrite xor_key_involutive. unfold Mock.mac. intros E. injection E as E.
    apply (f_equal (Z.lxor (Mock.xor_sum pt))) in E.
    rewrite !(Z.lxor_comm (Mock.xor_sum pt)), !Z.lxor_assoc, !Z.lxor_nilpotent,
      !Z.lxor_0_r in E.
    symmetry in E. by apply flip_bit_changes_sum in E.
  - rewrite xor_key_involutive. intros E.
    apply (f_equal Mock.xor_sum) in E. by apply flip_bit_changes_sum in E.
  - rewrite xor_key_flip_bit, xor_key_involutive. unfold Mock.mac.
    intros E. injection E as E.
    apply (f_equal (Z.lxor (Mock.xor_sum iv))) in E.
    rewrite <- !Z.lxor_assoc, !Z.lxor_nilpotent, !Z.lxor_0_l in E.
    symmetry in E. apply flip_bit_changes_sum in E; [done|].
    unfold Mock.xor_key in Hi. by rewrite length_map in Hi.
Qed.

Lemma mock_json_roundtrip : json_roundtrip.
Proof. intros v. simpl. by rewrite string_of_bytes_of_string. Qed.

Lemma mock_json_rejects_empty : json_rejects_empty.
Proof. split; [done|]. by eexists. Qed.

Lemma mock_key_wrap_roundtrip : key_wrap_roundtrip.
Proof.
  split; [apply bytes_of_string_of_bytes|].
  intros s. eexists. split; [reflexivity|]. simpl.
  by rewrite string_of_bytes_of_string.
Qed.

End MockFacts.

(** ** The envelope cipher on the mock host *)

Section EnvelopeExamples.
#[local] Existing Instances Mock.aead Mock.codec Mock.json_codec.

Lemma decryptData_encryptData_witness :
  exists envelope w1,
    encryptData Mock.key0 (Mock.value "pw") Mock.fresh = (inr envelope, w1)
    /\ decryptData Mock.key0 envelope = inr (Mock.value "pw").
Proof.
  apply (decryptData_encryptData Mock.key0 (Mock.value "pw") Mock.fresh
           mock_aead_correct mock_json_roundtrip).
  reflexivity.
Defined.

Lemma envelope_layout_witness :
  exists nonce tag ct w1,
    encryptData Mock.key0 (Mock.value "pw") Mock.fresh = (inr (nonce ++ tag ++ ct), w1)
    /\ length nonce = 16%nat /\ length tag = 16%nat
    /\ gcm_encrypt Mock.key0 nonce (utf8_encode (JSON_stringify (Mock.value "pw"))) = inr (ct, tag)
    /\ split_envelope (nonce ++ tag ++ ct) = (nonce, tag, ct)
    /\ forall buf, split_envelope buf = (take 16 buf, take 16 (drop 16 buf), drop 32 buf).
Proof.
  apply (envelope_layout Mock.key0 (Mock.value "pw") Mock.fresh mock_aead_correct).
  reflexivity.
Defined.

(** The envelope of the mock host has no reading as a 12-byte nonce, a
    16-byte tag and a ciphertext that the cuts of [decryptData] give back. *)
Lemma envelope_nonce_is_not_12_bytes :
  ~ exists nonce tag ct w1,
      encryptData Mock.key0 (Mock.value "pw") Mock.fresh = (inr (nonce ++ tag ++ ct), w1)
      /\ length nonce = 12%nat /\ length tag = 16%nat
      /\ split_envelope (nonce ++ tag ++ ct) = (nonce, tag, ct).
Proof.
  intros (nonce & tag & ct & w1 & _ & Hnonce & Htag & Hsplit).
  apply (f_equal (fun t => length (fst (fst t)))) in Hsplit.
  unfold split_envelope, subarray in Hsplit. cbn [fst] in Hsplit.
  change (16 - 0)%nat with 16%nat in Hsplit.
  rewrite drop_0, length_take, !length_app in Hsplit. lia.
Qed.

Example envelope_of_pw :
  fst (encryptData Mock.key0 (Mock.value "pw") Mock.fresh)
  = inr ([0; 1; 2; 3; 4; 5; 6; 7; 8; 9; 10; 11; 12; 13; 14; 15]
         ++ [58; 0; 0; 0; 0; 0; 0; 0; 0; 0; 0; 0; 0; 0; 0; 0]
         ++ [60; 113; 118]).
Proof. vm_compute. reflexivity. Qed.

Lemma decryptData_tampered_witness :
  exists envelope w1,
    encryptData Mock.key0 (Mock.value "pw") Mock.fresh = (inr envelope, w1)
    /\ (forall i, (i < 8 * length envelope)%nat ->
          failed (decryptData Mock.key0 (flip_bit i envelope)))
    /\ (forall short, (length short <= 32)%nat -> failed (decryptData Mock.key0 short)).
Proof.
  eexists _, _. split; [reflexivity|].
  eapply (decryptData_tampered Mock.key0 (Mock.value "pw") Mock.fresh _ _
            mock_aead_correct mock_aead_tamper_evident
            mock_aead_length_preserving mock_json_rejects_empty);
    reflexivity.
Defined.

End EnvelopeExamples.

(** ** MasterKeyManager *)

Lemma key_path_ne_data_path w : key_path w <> data_path w.
Proof.
  unfold key_path, data_path, join. intros E.
  apply (inj (String.append _)) in E. discriminate.
Qed.

Section KeyFacts.
Context `{BufferCodec, SafeStorage}.

Lemma readStoredKey_frame p w : exists r, readStoredKey p w = (r, w).
Proof.
  unfold readStoredKey, bind, readFileSync, lift, throw, ret.
  destruct (files w !! p); [|by eexists].
  destruct (decryptString _); [by eexists|].
  case_bool_decide; by eexists.
Qed.

Lemma readStoredKey_ok p w blob s :
  files w !! p = Some blob ->
  decryptString blob = inr s ->
  length (base64_decode s) = 32%nat ->
  readStoredKey p w = (inr (base64_decode s), w).
Proof.
  intros Hfile Hunwrap Hlen. unfold readStoredKey, bind, readFileSync, lift.
  rewrite Hfile, Hunwrap. by rewrite bool_decide_eq_false_2 by (intros ?; done).
Qed.

Lemma storeNewKey_run p k w :
  (exists e, storeNewKey p k w = (inl e, w))
  \/ (exists blob, storeNewKey p k w = (inr k, set_files (<[p := blob]> (files w)) w)
                   /\ encryptString (base64_encode k) = inr blob
                   /\ p ∉ write_denied w).
Proof.
  unfold storeNewKey, bind, lift, writeFileSync, ret.
  destruct (encryptString _) as [e|blob]; [left; by eexists|].
  case_bool_decide; [left; by eexists|].
  right. by exists blob.
Qed.

Lemma loadStoredKey_spec p w :
  exists o, loadStoredKey p w = (inr o, w)
    /\ forall k, o = Some k ->
          exists blob s, files w !! p = Some blob /\ decryptString blob = inr s
            /\ k = base64_decode s /\ length k = 32%nat.
Proof.
  unfold loadStoredKey, bind at 1, existsSync.
  case_bool_decide as Hpresent; [|by eexists].
  unfold try_catch, bind at 1, readStoredKey, bind, readFileSync, lift, throw, ret.
  destruct (files w !! p) as [blob|]; [|by eexists].
  destruct (decryptString blob) as [e|s] eqn:Hs; [by eexists|].
  case_bool_decide as Hlen; [by eexists|].
  eexists. split; [done|]. intros k [= <-]. by exists blob, s.
Qed.

Lemma loadStoredKey_ok p w blob s :
  files w !! p = Some blob ->
  decryptString blob = inr s ->
  length (base64_decode s) = 32%nat ->
  loadStoredKey p w = (inr (Some (base64_decode s)), w).
Proof.
  intros Hfile Hunwrap Hlen. unfold loadStoredKey.
  rewrite (bind_run _ _ w true w)
    by (unfold existsSync; by rewrite bool_decide_eq_true_2 by eauto).
  unfold try_catch.
  by rewrite (bind_run _ _ w (base64_decode s) w)
    by (by apply (readStoredKey_ok _ _ blob)).
Qed.

Lemma generateKey_spec p w :
  exists newKey w1, randomBytes 32 w = (inr newKey, w1)
    /\ (generateKey p w = (inr None, w1)
        \/ exists blob,
             generateKey p w = (inr (Some newKey), set_files (<[p := blob]> (files w1)) w1)
             /\ encryptString (base64_encode newKey) = inr blob
             /\ p ∉ write_denied w1).
Proof.
  destruct (randomBytes_run 32 w) as (newKey & w1 & Hrand & _).
  exists newKey, w1. split; [done|].
  unfold generateKey. rewrite (bind_run _ _ _ _ _ Hrand). unfold try_catch, bind.
  destruct (storeNewKey_run p newKey w1) as [[e ->]|(blob & -> & Hwrap & Hw)].
  - by left.
  - right. by exists blob.
Qed.

Lemma getOrGenerateMasterKey_unavailable w :
  encryptionAvailable w = false -> getOrGenerateMasterKey w = (inr None, w).
Proof.
  intros Hoff. unfold getOrGenerateMasterKey, bind, isEncryptionAvailable.
  by rewrite Hoff.
Qed.

Lemma getOrGenerateMasterKey_available w :
  encryptionAvailable w = true ->
  getOrGenerateMasterKey w
  = (let* stored := loadStoredKey (key_path w) in
     match stored with
     | Some keyBuffer => ret (Some keyBuffer)
     | None => generateKey (key_path w)
     end) w.
Proof.
  intros Hon. unfold getOrGenerateMasterKey.
  rewrite (bind_run _ _ w true w) by (unfold isEncryptionAvailable; by rewrite Hon).
  cbn [negb]. by rewrite (bind_run _ _ w (key_path w) w).
Qed.

Lemma getOrGenerateMasterKey_stored w blob s :
  encryptionAvailable w = true ->
  files w !! key_path w = Some blob ->
  decryptString blob = inr s ->
  length (base64_decode s) = 32%nat ->
  getOrGenerateMasterKey w = (inr (Some (base64_decode s)), w).
Proof.
  intros Hon Hfile Hunwrap Hlen.
  rewrite getOrGenerateMasterKey_available by done.
  by rewrite (bind_run _ _ _ _ _ (loadStoredKey_ok _ _ _ _ Hfile Hunwrap Hlen)).
Qed.

(** Where a returned key comes from: the wrapped-key file, or the entropy
    stream, in which case its wrapped form has been written. *)
Lemma getOrGenerateMasterKey_inv w key w1 :
  getOrGenerateMasterKey w = (inr (Some key), w1) ->
  encryptionAvailable w = true
  /\ ((w1 = w /\ length key = 32%nat
       /\ exists blob s, files w !! key_path w = Some blob
            /\ decryptString blob = inr s /\ key = base64_decode s)
      \/ (exists w0 blob, randomBytes 32 w = (inr key, w0)
            /\ encryptString (base64_encode key) = inr blob
            /\ w1 = set_files (<[key_path w := blob]> (files w0)) w0)).
Proof.
  destruct (encryptionAvailable w) eqn:Hon;
    [|rewrite getOrGenerateMasterKey_unavailable by done; discriminate].
  rewrite getOrGenerateMasterKey_available by done.
  destruct (loadStoredKey_spec (key_path w) w) as (o & Hload & Ho).
  rewrite (bind_run _ _ _ _ _ Hload).
  destruct o as [k|].
  - intros [= <- <-]. split; [done|]. left.
    destruct (Ho k eq_refl) as (blob & s & ? & ? & ? & ?). eauto 10.
  - destruct (generateKey_spec (key_path w) w)
      as (newKey & w0 & Hrand & [-> | (blob & -> & Hwrap & _)]); [discriminate|].
    intros [= <- <-]. split; [done|]. right. by exists w0, blob.
Qed.

(** The function never throws, and touches no file but the wrapped key. *)
Lemma getOrGenerateMasterKey_spec w :
  exists r w1, getOrGenerateMasterKey w = (inr r, w1)
    /\ userData w1 = userData w
    /\ write_denied w1 = write_denied w
    /\ encryptionAvailable w1 = encryptionAvailable w
    /\ (forall p, p <> key_path w -> files w1 !! p = files w !! p)
    /\ (r = None -> files w1 = files w)
    /\ (encryptionAvailable w = false -> r = None /\ w1 = w).
Proof.
  destruct (encryptionAvailable w) eqn:Hon;
    [|rewrite getOrGenerateMasterKey_unavailable by done; by eexists _, _].
  rewrite getOrGenerateMasterKey_available by done.
  destruct (loadStoredKey_spec (key_path w) w) as (o & Hload & _).
  rewrite (bind_run _ _ _ _ _ Hload).
  destruct o as [k|]; [eexists _, _; by repeat split|].
  destruct (randomBytes_run 32 w) as (newKey' & w0' & Hrand' & _ & _ & Hf & Hd & Ha & Hu).
  destruct (generateKey_spec (key_path w) w)
    as (newKey & w0 & Hrand & [-> | (blob & -> & _)]);
    rewrite Hrand' in Hrand; injection Hrand as <- <-;
    eexists _, _; (split; [reflexivity|]); simpl; rewrite Hf, Hd, Ha, Hu, Hon.
  - by repeat split.
  - repeat split; try done. intros p Hp. by rewrite lookup_insert_ne.
Qed.

(** C7: when the wrapped-key file unwraps to 32 bytes and the secret store
    is available, two consecutive calls return the same 32 key bytes. *)
Theorem getOrGenerateMasterKey_twice w blob s :
  encryptionAvailable w = true ->
  files w !! key_path w = Some blob ->
  decryptString blob = inr s ->
  length (base64_decode s) = 32%nat ->
  exists key w1 w2,
    getOrGenerateMasterKey w = (inr (Some key), w1)
    /\ getOrGenerateMasterKey w1 = (inr (Some key), w2)
    /\ length key = 32%nat /\ key = base64_decode s /\ files w2 = files w.
Proof.
  intros Hon Hfile Hunwrap Hlen.
  exists (base64_decode s), w, w.
  rewrite (getOrGenerateMasterKey_stored w blob s) by done. done.
Qed.

(** Whatever key a call returns, read back or freshly generated, the next
    call returns it again and leaves the host as it is. *)
Lemma getOrGenerateMasterKey_again w key w1 :
  key_wrap_roundtrip ->
  getOrGenerateMasterKey w = (inr (Some key), w1) ->
  getOrGenerateMasterKey w1 = (inr (Some key), w1) /\ length key = 32%nat.
Proof.
  intros [Hb64 Hwrap] Hget.
  apply getOrGenerateMasterKey_inv in Hget
    as (Hon & [(-> & Hlen & blob & s & Hfile & Hs & ->)
              | (w0 & blob & Hrand & Henc & ->)]).
  - split; [|done]. by apply (getOrGenerateMasterKey_stored w blob s).
  - destruct (randomBytes_run 32 w)
      as (key' & w0' & Hrand' & Hlen & Hbytes & _ & _ & Ha & Hu).
    rewrite Hrand in Hrand'. injection Hrand' as <- <-.
    destruct (Hwrap (base64_encode key)) as (blob' & Henc' & Hdec).
    rewrite Henc in Henc'. injection Henc' as <-.
    split; [|done].
    rewrite <- (Hb64 key Hbytes) at 1.
    apply (getOrGenerateMasterKey_stored _ blob).
    + simpl. by rewrite Ha.
    + unfold key_path. simpl. rewrite Hu. apply lookup_insert_eq.
    + done.
    + by rewrite Hb64.
Qed.

(** After a call that returned a key, the wrapped-key file holds that key. *)
Lemma getOrGenerateMasterKey_persisted w key w1 :
  key_wrap_roundtrip ->
  getOrGenerateMasterKey w = (inr (Some key), w1) ->
  encryptionAvailable w1 = true
  /\ userData w1 = userData w
  /\ write_denied w1 = write_denied w
  /\ length key = 32%nat
  /\ (forall p, p <> key_path w -> files w1 !! p = files w !! p)
  /\ exists blob s, files w1 !! key_path w = Some blob
       /\ decryptString blob = inr s /\ base64_decode s = key.
Proof.
  intros [Hb64 Hwrap] Hget.
  apply getOrGenerateMasterKey_inv in Hget
    as (Hon & [(-> & Hlen & blob & s & Hfile & Hs & ->)
              | (w0 & blob & Hrand & Henc & ->)]).
  - split_and!; try done. by exists blob, s.
  - destruct (randomBytes_run 32 w)
      as (key' & w0' & Hrand' & Hlen & Hbytes & Hf & Hd & Ha & Hu).
    rewrite Hrand in Hrand'. injection Hrand' as <- <-.
    destruct (Hwrap (base64_encode key)) as (blob' & Henc' & Hdec).
    rewrite Henc in Henc'. injection Henc' as <-.
    simpl. rewrite Ha, Hu, Hd, Hf. split_and!; try done.
    + intros p Hp. by rewrite lookup_insert_ne.
    + exists blob, (base64_encode key). rewrite lookup_insert_eq.
      split_and!; try done. by apply Hb64.
Qed.

(** With the secret store available and the wrapped-key file writable, a
    key is returned. *)
Lemma getOrGenerateMasterKey_succeeds w :
  key_wrap_roundtrip ->
  encryptionAvailable w = true ->
  key_path w ∉ write_denied w ->
  exists key w1, getOrGenerateMasterKey w = (inr (Some key), w1).
Proof.
  intros [_ Hwrap] Hon Hwritable.
  rewrite getOrGenerateMasterKey_available by done.
  destruct (loadStoredKey_spec (key_path w) w) as (o & Hload & _).
  rewrite (bind_run _ _ _ _ _ Hload).
  destruct o as [k|]; [by eexists _, _|].
  destruct (randomBytes_run 32 w) as (newKey & w0 & Hrand & _ & _ & _ & Hd & _).
  unfold generateKey. rewrite (bind_run _ _ _ _ _ Hrand).
  destruct (Hwrap (base64_encode newKey)) as (blob & Henc & _).
  unfold try_catch, bind, storeNewKey, bind, lift, writeFileSync, ret.
  rewrite Henc, Hd. rewrite bool_decide_eq_false_2 by done.
  by eexists _, _.
Qed.

End KeyFacts.

(** ** CredentialVault *)

Section VaultFacts.
Context `{Aead, BufferCodec, JsonCodec, SafeStorage}.

(** C5: with the secret store unavailable, [auth:save-credentials] returns
    [false] and leaves the host, the vault file included, as it was. *)
Theorem save_credentials_unavailable (data : json) w :
  encryptionAvailable w = false ->
  save_credentials data w = (inr false, w).
Proof.
  intros Hoff. unfold save_credentials.
  by rewrite (bind_run _ _ _ _ _ (getOrGenerateMasterKey_unavailable w Hoff)).
Qed.

(** The same holds whenever no master key comes back, for instance because
    the wrapped key could not be written: no file changes. *)
Lemma save_credentials_no_key (data : json) w w0 :
  getOrGenerateMasterKey w = (inr None, w0) ->
  save_credentials data w = (inr false, w0) /\ files w0 = files w.
Proof.
  intros Hnone. unfold save_credentials. rewrite (bind_run _ _ _ _ _ Hnone).
  split; [done|].
  destruct (getOrGenerateMasterKey_spec w) as (r & w1 & Hget & _ & _ & _ & _ & Hsame & _).
  rewrite Hnone in Hget. injection Hget as <- <-. by apply Hsame.
Qed.

Lemma load_credentials_absent w :
  files w !! data_path w = None -> load_credentials w = (inr None, w).
Proof.
  intros Habsent. unfold load_credentials.
  rewrite (bind_run _ _ w (data_path w) w) by done.
  rewrite (bind_run _ _ w false w); [done|].
  unfold existsSync. rewrite Habsent.
  by rewrite bool_decide_eq_false_2 by (by intros [? ?]).
Qed.

Lemma load_credentials_present w envelope :
  files w !! data_path w = Some envelope ->
  load_credentials w
  = (let* masterKey := getOrGenerateMasterKey in
     match masterKey with
     | None => ret None
     | Some key =>
         try_catch
           (let* fileBuffer := readFileSync (data_path w) in
            let* data := lift (decryptData key fileBuffer) in
            ret (Some data))
           (fun _ => ret None)
     end) w.
Proof.
  intros Hfile. unfold load_credentials.
  rewrite (bind_run _ _ w (data_path w) w) by done.
  rewrite (bind_run _ _ w true w); [done|].
  unfold existsSync. by rewrite Hfile, bool_decide_eq_true_2 by eauto.
Qed.

(** C4, as the code has it: [auth:load-credentials] never rejects.  It
    returns [null] when no vault file exists, and the same [null] when the
    secret store is unavailable or the stored envelope does not decrypt
    under the current key; a record it returns is the one decrypted from
    the vault file. *)
Theorem load_credentials_total w :
  exists r w1, load_credentials w = (inr r, w1)
    /\ (files w !! data_path w = None -> r = None /\ w1 = w)
    /\ (encryptionAvailable w = false -> r = None /\ w1 = w)
    /\ (forall key w0 envelope,
          getOrGenerateMasterKey w = (inr (Some key), w0) ->
          files w !! data_path w = Some envelope ->
          failed (decryptData key envelope) -> r = None /\ w1 = w0)
    /\ (forall data, r = Some data ->
          exists key w0 envelope,
            getOrGenerateMasterKey w = (inr (Some key), w0)
            /\ files w !! data_path w = Some envelope
            /\ decryptData key envelope = inr data).
Proof.
  destruct (files w !! data_path w) as [envelope|] eqn:Hfile;
    [|rewrite load_credentials_absent by done; eexists _, _; by repeat split].
  rewrite (load_credentials_present w envelope) by done.
  destruct (getOrGenerateMasterKey_spec w)
    as (o & w0 & Hget & _ & _ & _ & Hframe & _ & Hoff).
  unfold bind at 1. rewrite Hget.
  destruct o as [key|].
  - assert (Hread : readFileSync (data_path w) w0 = (inr envelope, w0)).
    { unfold readFileSync.
      rewrite Hframe by (intros E; by apply (key_path_ne_data_path w)).
      by rewrite Hfile. }
    unfold try_catch. rewrite (bind_run _ _ _ _ _ Hread). unfold bind, lift, ret.
    destruct (decryptData key envelope) as [e|data] eqn:Hdec.
    + eexists _, _. split; [reflexivity|]. split_and!.
      * done.
      * intros Hx; by destruct (Hoff Hx).
      * by intros key' w0' envelope' [= <- <-] [= <-] _.
      * done.
    + eexists _, _. split; [reflexivity|]. split_and!.
      * done.
      * intros Hx; by destruct (Hoff Hx).
      * intros key' w0' envelope' [= <- <-] [= <-] [e He]. congruence.
      * intros data' [= <-]. by exists key, w0, envelope.
  - eexists _, _. split; [reflexivity|]. split_and!; try done.
    intros Hx. by destruct (Hoff Hx).
Qed.




(** The vault round trip: with the secret store available and both files
    writable, a record that was saved is the record a load returns. *)
Lemma save_then_load (data : json) w :
  aead_correct -> json_roundtrip -> key_wrap_roundtrip ->
  encryptionAvailable w = true ->
  key_path w ∉ write_denied w ->
  data_path w ∉ write_denied w ->
  exists w1, save_credentials data w = (inr true, w1)
    /\ load_credentials w1 = (inr (Some data), w1).
Proof.
  intros Haead Hjson Hkeys Hon Hkp Hdp.
  destruct (getOrGenerateMasterKey_succeeds w Hkeys Hon Hkp) as (key & wa & Hget).
  destruct (getOrGenerateMasterKey_persisted w key wa Hkeys Hget)
    as (Hona & Hua & Hda & Hlen & Hframe & blob & s & Hblob & Hs & Hkey).
  destruct (encryptData_run key data wa Haead Hlen)
    as (iv & tag & ct & wb & Hrun & Hrand & Hiv & Htag & _ & Hdec).
  destruct (randomBytes_run 16 wa) as (iv' & wb' & Hrand' & _ & _ & Hfb & Hdb & Hab & Hub).
  rewrite Hrand in Hrand'. injection Hrand' as <- <-.
  set (envelope := iv ++ tag ++ ct) in *.
  set (wc := set_files (<[data_path w := envelope]> (files wb)) wb).
  assert (Hpath : data_path wb = data_path w)
    by (unfold data_path; by rewrite Hub, Hua).
  exists wc. split.
  - unfold save_credentials. rewrite (bind_run _ _ _ _ _ Hget).
    unfold try_catch. rewrite (bind_run _ _ _ _ _ Hrun).
    rewrite (bind_run _ _ wb (data_path wb) wb) by done.
    rewrite Hpath. unfold bind, writeFileSync, ret.
    rewrite Hdb, Hda. by rewrite bool_decide_eq_false_2 by done.
  - assert (Hpc : data_path wc = data_path w) by done.
    assert (Hkc : key_path wc = key_path w)
      by (unfold key_path; simpl; by rewrite Hub, Hua).
    rewrite (load_credentials_present wc envelope)
      by (rewrite Hpc; apply lookup_insert_eq).
    assert (Hgetc : getOrGenerateMasterKey wc = (inr (Some key), wc)).
    { rewrite <- Hkey. apply (getOrGenerateMasterKey_stored wc blob s).
      - simpl. by rewrite Hab.
      - rewrite Hkc. simpl.
        rewrite lookup_insert_ne by (intros E; by apply (key_path_ne_data_path w)).
        by rewrite Hfb.
      - done.
      - by rewrite Hkey. }
    rewrite (bind_run _ _ _ _ _ Hgetc). unfold try_catch.
    rewrite (bind_run _ _ wc envelope wc)
      by (unfold readFileSync; rewrite Hpc; simpl; by rewrite lookup_insert_eq).
    unfold bind, lift, ret. fold envelope.
    replace (decryptData key envelope) with (inr data : result json); [done|].
    symmetry. by apply decryptData_sealed.
Qed.

End VaultFacts.

(** ** The vault on the mock host *)

Section VaultExamples.
#[local] Existing Instances Mock.aead Mock.codec Mock.json_codec Mock.safe_storage.

Example load_enrolled :
  load_credentials Mock.enrolled = (inr (Some (Mock.value "pw")), Mock.enrolled).
Proof. vm_compute. reflexivity. Qed.

Example key_of_enrolled :
  getOrGenerateMasterKey Mock.enrolled = (inr (Some Mock.key0), Mock.enrolled).
Proof. vm_compute. reflexivity. Qed.

(** On [Mock.tampered] the vault file exists and is rejected under the
    current key; the handler answers [null], which is also its answer on
    [Mock.fresh], where no vault file exists. *)
Lemma load_credentials_null_with_vault_present :
  is_Some (files Mock.tampered !! data_path Mock.tampered)
  /\ getOrGenerateMasterKey Mock.tampered = (inr (Some Mock.key0), Mock.tampered)
  /\ failed (decryptData Mock.key0 (flip_bit 0 Mock.envelope0))
  /\ load_credentials Mock.tampered = (inr None, Mock.tampered)
  /\ files Mock.fresh !! data_path Mock.fresh = None
  /\ load_credentials Mock.fresh = (inr None, Mock.fresh).
Proof.
  split_and!.
  - eexists. vm_compute. reflexivity.
  - vm_compute. reflexivity.
  - eexists. vm_compute. reflexivity.
  - vm_compute. reflexivity.
  - vm_compute. reflexivity.
  - vm_compute. reflexivity.
Qed.

Lemma save_credentials_unavailable_witness :
  save_credentials (Mock.value "other") Mock.no_keyring = (inr false, Mock.no_keyring).
Proof.
  apply (save_credentials_unavailable (Mock.value "other") Mock.no_keyring).
  reflexivity.
Defined.

Lemma getOrGenerateMasterKey_twice_witness :
  exists key w1 w2,
    getOrGenerateMasterKey Mock.enrolled = (inr (Some key), w1)
    /\ getOrGenerateMasterKey w1 = (inr (Some key), w2)
    /\ length key = 32%nat
    /\ key = base64_decode (Mock.string_of_bytes Mock.key0)
    /\ files w2 = files Mock.enrolled.
Proof.
  apply (getOrGenerateMasterKey_twice Mock.enrolled Mock.wrapped_key0
           (Mock.string_of_bytes Mock.key0)).
  - reflexivity.
  - vm_compute. reflexivity.
  - vm_compute. reflexivity.
  - vm_compute. reflexivity.
Defined.



End VaultExamples.

(** ** The output path *)

Lemma is_dot_pdf_length s : is_dot_pdf s = true -> String.length s = 4%nat.
Proof.
  destruct s as [|c0 [|c1 [|c2 [|c3 [|c4 s]]]]]; simpl; try discriminate; done.
Qed.

Lemma string_length_app (a b : string) :
  String.length (a +:+ b) = (String.length a + String.length b)%nat.
Proof. induction a as [|c a IH]; simpl; [done|]. by rewrite IH. Qed.

(** Where the path ends in [.pdf], in either case, these four characters
    are replaced by [_signed.pdf]. *)
Lemma replace_pdf_suffix_match stem ext :
  is_dot_pdf ext = true ->
  replace_pdf_suffix (stem +:+ ext) = stem +:+ "_signed.pdf".
Proof.
  intros Hext. induction stem as [|c stem IH].
  - simpl. destruct ext; [done|]. simpl in *. by rewrite Hext.
  - change (String c stem +:+ ext) with (String c (stem +:+ ext)).
    change (String c stem +:+ "_signed.pdf") with (String c (stem +:+ "_signed.pdf")).
    cbn [replace_pdf_suffix].
    destruct (is_dot_pdf (String c (stem +:+ ext))) eqn:E.
    + apply is_dot_pdf_length in E, Hext. simpl in E.
      rewrite string_length_app in E. lia.
    + by rewrite IH.
Qed.

(** Where the expression matches nowhere, the path is returned as it is. *)
Lemma replace_pdf_suffix_no_match s :
  (forall stem ext, s = stem +:+ ext -> is_dot_pdf ext = false) ->
  replace_pdf_suffix s = s.
Proof.
  induction s as [|c s IH]; intros Hno; [done|].
  cbn [replace_pdf_suffix]. rewrite (Hno "" (String c s)) by done.
  f_equal. apply IH. intros stem ext ->. by apply (Hno (String c stem) ext).
Qed.

Lemma signed_path_differs stem ext :
  is_dot_pdf ext = true -> stem +:+ "_signed.pdf" <> stem +:+ ext.
Proof.
  intros Hext E. apply (inj (String.append _)) in E. by subst ext.
Qed.

(** ** SigningPipeline *)

Lemma array_get_None {A} (l : list A) i :
  array_get l i = None <-> ~ (0 <= i < Z.of_nat (length l)).
Proof.
  unfold array_get. destruct (0 <=? i) eqn:E.
  - apply Z.leb_le in E. rewrite lookup_ge_None. lia.
  - apply Z.leb_gt in E. split; [lia|done].
Qed.

Lemma str_or_nonempty s d : d <> ""%string -> str_or s d <> ""%string.
Proof. intros Hd. unfold str_or. by case_bool_decide. Qed.

Section PipelineFacts.
Context `{PdfToolkit}.

(** The body of the [try] writes one file, as its last effect: either it
    throws and the host is as it was, or it returns the output path and the
    host differs by the file written there. *)
Lemma sign_pdf_try_run args w :
  exists r w1, sign_pdf_try args w = (r, w1)
    /\ ((exists e, r = inl e /\ w1 = w)
        \/ (exists signedPdf,
              r = inr (replace_pdf_suffix (filePath args))
              /\ w1 = set_files
                        (<[replace_pdf_suffix (filePath args) := signedPdf]> (files w)) w)).
Proof.
  unfold sign_pdf_try.
  unfold bind at 1, readFileSync at 1.
  destruct (files w !! filePath args) as [pdfBuffer|]; [|by eauto 7].
  unfold bind at 1, lift at 1.
  destruct (PDFDocument_load pdfBuffer) as [e|pdfDoc]; [by eauto 7|].
  unfold bind at 1, lift at 1.
  destruct (array_get _ _) as [page|]; [|by eauto 7].
  unfold bind at 1, lift at 1.
  destruct (embedFont _ _) as [e|[font pdfDoc1]]; [by eauto 7|].
  unfold bind at 1, lift at 1.
  destruct (drawLabel _ _ _ _ _) as [e|pdfDoc2]; [by eauto 7|].
  unfold bind at 1, lift at 1.
  destruct (save _) as [e|modified]; [by eauto 7|].
  unfold bind at 1, lift at 1.
  destruct (plainAddPlaceholder _) as [e|placeholder]; [by eauto 7|].
  unfold bind at 1, existsSync at 1.
  case_bool_decide as Hcert; cbn [negb]; [|by eauto 7].
  unfold bind at 1, ret at 1.
  unfold bind at 1, readFileSync at 1.
  destruct (files w !! certPath args) as [p12|]; [|by eauto 7].
  unfold bind at 1, lift at 1.
  destruct (signpdf_sign _ _ _) as [e|signedPdf]; [by eauto 7|].
  unfold bind at 1, writeFileSync at 1.
  case_bool_decide; [by eauto 7|].
  eexists _, _. split; [reflexivity|]. right. by exists signedPdf.
Qed.

Lemma sign_pdf_try_spec args w :
  (exists e, sign_pdf_try args w = (inl e, w))
  \/ (exists signedPdf,
        sign_pdf_try args w
        = (inr (replace_pdf_suffix (filePath args)),
           set_files (<[replace_pdf_suffix (filePath args) := signedPdf]> (files w)) w)).
Proof.
  destruct (sign_pdf_try_run args w)
    as (r & w1 & -> & [(e & -> & ->)|(signedPdf & -> & ->)]); eauto.
Qed.

(** What the [catch] makes of the two outcomes of the body. *)
Lemma sign_pdf_caught args w e w1 :
  sign_pdf_try args w = (inl e, w1) ->
  sign_pdf args w = (inr (SignFailure (str_or (err_message e) "Unknown error")), w1).
Proof. intros Hbody. unfold sign_pdf, try_catch, bind. by rewrite Hbody. Qed.

Lemma sign_pdf_returned args w out w1 :
  sign_pdf_try args w = (inr out, w1) ->
  sign_pdf args w = (inr (SignSuccess out), w1).
Proof. intros Hbody. unfold sign_pdf, try_catch, bind. by rewrite Hbody. Qed.

Lemma sign_pdf_spec args w :
  (exists msg, sign_pdf args w = (inr (SignFailure msg), w) /\ msg <> ""%string)
  \/ (exists signedPdf,
        sign_pdf args w
        = (inr (SignSuccess (replace_pdf_suffix (filePath args))),
           set_files (<[replace_pdf_suffix (filePath args) := signedPdf]> (files w)) w)).
Proof.
  destruct (sign_pdf_try_spec args w) as [[e He]|[signedPdf Hok]].
  - left. eexists. split; [by apply sign_pdf_caught|]. by apply str_or_nonempty.
  - right. exists signedPdf. by apply sign_pdf_returned.
Qed.

(** C8, as the code has it: when [pageIndex] indexes no page of the loaded
    document, the handler resolves with [success: false] and the message of
    the [TypeError] that reading [getSize] of [undefined] raises, whatever
    the later steps would do, and the host is unchanged. *)
Theorem sign_pdf_page_out_of_range args w pdfBuffer pdfDoc :
  files w !! filePath args = Some pdfBuffer ->
  PDFDocument_load pdfBuffer = inr pdfDoc ->
  ~ (0 <= pageIndex args < Z.of_nat (length (getPages pdfDoc))) ->
  sign_pdf_try args w = (inl (TypeError undefined_getSize), w)
  /\ sign_pdf args w = (inr (SignFailure undefined_getSize), w).
Proof.
  intros Hfile Hload Hpage. apply array_get_None in Hpage.
  assert (Hbody : sign_pdf_try args w = (inl (TypeError undefined_getSize), w)).
  { unfold sign_pdf_try.
    rewrite (bind_run _ _ w pdfBuffer w) by (unfold readFileSync; by rewrite Hfile).
    rewrite (bind_run _ _ w pdfDoc w) by (unfold lift; by rewrite Hload).
    apply bind_throw. unfold lift. by rewrite Hpage. }
  split; [done|]. by rewrite (sign_pdf_caught _ _ _ _ Hbody).
Qed.

(** C9, as the code has it: for a path that ends in [.pdf], in either case,
    the output path is the path with these four characters replaced by
    [_signed.pdf]; it differs from the input path; the handler either
    resolves with a failure and an unchanged host, or with the output path
    and a host that differs by the file written there, so the input file
    is as it was in both cases. *)
Theorem sign_pdf_output args w stem ext :
  filePath args = stem +:+ ext ->
  is_dot_pdf ext = true ->
  let out := stem +:+ "_signed.pdf" in
  replace_pdf_suffix (filePath args) = out
  /\ out <> filePath args
  /\ ((exists msg, sign_pdf args w = (inr (SignFailure msg), w))
      \/ (exists signedPdf,
            sign_pdf args w
            = (inr (SignSuccess out), set_files (<[out := signedPdf]> (files w)) w)))
  /\ (forall r w1, sign_pdf args w = (r, w1) ->
        files w1 !! filePath args = files w !! filePath args).
Proof.
  intros Hpath Hext out.
  assert (Hout : replace_pdf_suffix (filePath args) = out)
    by (rewrite Hpath; by apply replace_pdf_suffix_match).
  assert (Hne : out <> filePath args)
    by (rewrite Hpath; by apply signed_path_differs).
  split_and!; [done|done| |].
  - destruct (sign_pdf_spec args w) as [(msg & Hfail & _)|[signedPdf Hok]].
    + left. by exists msg.
    + right. exists signedPdf. by rewrite <- Hout.
  - intros r w1.
    destruct (sign_pdf_spec args w) as [(msg & -> & _)|[signedPdf ->]].
    + by intros [= _ <-].
    + intros [= _ <-]. simpl. rewrite Hout. by rewrite lookup_insert_ne.
Qed.

End PipelineFacts.

(** ** The pipeline on the mock host *)

Section PipelineExamples.
#[local] Existing Instance Mock.toolkit.

Example sign_first_page :
  sign_pdf (Mock.request "/docs/a.pdf" 0) Mock.fresh
  = (inr (SignSuccess "/docs/a_signed.pdf"),
     set_files (<["/docs/a_signed.pdf" := Mock.signed_document]> (files Mock.fresh)) Mock.fresh).
Proof. vm_compute. reflexivity. Qed.

Example sign_missing_document :
  sign_pdf (Mock.request "/docs/none.pdf" 0) Mock.fresh
  = (inr (SignFailure "ENOENT: no such file or directory, open '/docs/none.pdf'"),
     Mock.fresh).
Proof. vm_compute. reflexivity. Qed.

(** Page 1 of a one-page document: the failure carries the message of a
    [TypeError], not an error kind of its own. *)
Lemma sign_pdf_invalid_page_is_a_TypeError :
  sign_pdf_try (Mock.request "/docs/a.pdf" 1) Mock.fresh
  = (inl (mkError "TypeError" "Cannot read properties of undefined (reading 'getSize')"),
     Mock.fresh)
  /\ sign_pdf (Mock.request "/docs/a.pdf" 1) Mock.fresh
     = (inr (SignFailure "Cannot read properties of undefined (reading 'getSize')"),
        Mock.fresh)
  /\ sign_pdf (Mock.request "/docs/a.pdf" 1) Mock.fresh
     <> (inr (SignFailure "InvalidPage"), Mock.fresh).
Proof.
  assert (Hrun : sign_pdf (Mock.request "/docs/a.pdf" 1) Mock.fresh
     = (inr (SignFailure "Cannot read properties of undefined (reading 'getSize')"),
        Mock.fresh)) by (vm_compute; reflexivity).
  split_and!; [vm_compute; reflexivity|done|].
  rewrite Hrun. intros E. discriminate E.
Qed.

Lemma sign_pdf_page_out_of_range_witness :
  sign_pdf_try (Mock.request "/docs/a.pdf" 1) Mock.fresh
  = (inl (TypeError undefined_getSize), Mock.fresh)
  /\ sign_pdf (Mock.request "/docs/a.pdf" 1) Mock.fresh
     = (inr (SignFailure undefined_getSize), Mock.fresh).
Proof.
  apply (@sign_pdf_page_out_of_range Mock.toolkit
           (Mock.request "/docs/a.pdf" 1) Mock.fresh Mock.document Mock.document).
  - vm_compute. reflexivity.
  - vm_compute. reflexivity.
  - simpl. lia.
Defined.

(** For [/docs/A.PDF] the output is [/docs/A_signed.pdf]: the extension of
    the input is not kept. *)
Lemma output_path_of_upper_case_extension :
  replace_pdf_suffix "/docs/A.PDF" = "/docs/A_signed.pdf"%string
  /\ replace_pdf_suffix "/docs/A.PDF" <> ("/docs/A" +:+ "_signed" +:+ ".PDF")%string
  /\ exists w1,
       sign_pdf (Mock.request "/docs/A.PDF" 0) Mock.fresh
       = (inr (SignSuccess "/docs/A_signed.pdf"), w1)
       /\ files w1 !! "/docs/A_signed.pdf"%string = Some Mock.signed_document
       /\ files w1 !! "/docs/A_signed.PDF"%string = None.
Proof.
  split_and!; [done|intros E; discriminate E|].
  eexists. split_and!; [vm_compute; reflexivity|vm_compute; reflexivity..].
Qed.

Lemma sign_pdf_output_witness :
  replace_pdf_suffix (filePath (Mock.request "/docs/a.pdf" 0)) = "/docs/a_signed.pdf"%string
  /\ "/docs/a_signed.pdf"%string <> filePath (Mock.request "/docs/a.pdf" 0)
  /\ ((exists msg, sign_pdf (Mock.request "/docs/a.pdf" 0) Mock.fresh
                   = (inr (SignFailure msg), Mock.fresh))
      \/ (exists signedPdf,
            sign_pdf (Mock.request "/docs/a.pdf" 0) Mock.fresh
            = (inr (SignSuccess "/docs/a_signed.pdf"),
               set_files (<["/docs/a_signed.pdf"%string := signedPdf]> (files Mock.fresh))
                 Mock.fresh)))
  /\ (forall r w1, sign_pdf (Mock.request "/docs/a.pdf" 0) Mock.fresh = (r, w1) ->
        files w1 !! filePath (Mock.request "/docs/a.pdf" 0)
        = files Mock.fresh !! filePath (Mock.request "/docs/a.pdf" 0)).
Proof.
  apply (sign_pdf_output (Mock.request "/docs/a.pdf" 0) Mock.fresh "/docs/a" ".pdf").
  - reflexivity.
  - reflexivity.
Defined.

(** A path that does not end in [.pdf] is its own output path: the signed
    document replaces the input file. *)
Lemma sign_pdf_without_pdf_suffix :
  replace_pdf_suffix "/docs/contract" = "/docs/contract"%string
  /\ exists w1,
       sign_pdf (Mock.request "/docs/contract" 0) Mock.fresh
       = (inr (SignSuccess "/docs/contract"), w1)
       /\ files Mock.fresh !! "/docs/contract"%string = Some Mock.document
       /\ files w1 !! "/docs/contract"%string = Some Mock.signed_document.
Proof.
  split; [done|].
  eexists. split_and!; [vm_compute; reflexivity|vm_compute; reflexivity..].
Qed.

End PipelineExamples.

(** * Further properties of the main process *)

(** ** The key manager *)

Section KeyManagerMore.
Context `{BufferCodec, SafeStorage}.

(** When nothing valid is stored, the first block falls through. *)
Lemma loadStoredKey_invalid p w :
  (files w !! p = None
   \/ exists blob, files w !! p = Some blob
        /\ (failed (decryptString blob)
            \/ exists s, decryptString blob = inr s
                 /\ length (base64_decode s) <> 32%nat)) ->
  loadStoredKey p w = (inr None, w).
Proof.
  intros Hbad. unfold loadStoredKey, bind at 1, existsSync.
  destruct Hbad as [Hnone|(blob & Hfile & Hblob)].
  - rewrite Hnone. by rewrite bool_decide_eq_false_2 by (by intros [? ?]).
  - rewrite Hfile. rewrite bool_decide_eq_true_2 by eauto.
    unfold try_catch, bind at 1, readStoredKey, bind, readFileSync, lift, throw, ret.
    rewrite Hfile. destruct Hblob as [[e ->]|(s & -> & Hlen)]; [done|].
    by rewrite bool_decide_eq_true_2.
Qed.

Lemma storeNewKey_denied p k w :
  p ∈ write_denied w -> exists e, storeNewKey p k w = (inl e, w).
Proof.
  intros Hdenied. unfold storeNewKey, bind, lift, writeFileSync.
  destruct (encryptString _); [by eexists|].
  rewrite bool_decide_eq_true_2 by done. by eexists.
Qed.

(** X1: [getOrGenerateMasterKey] never throws; it leaves the secret-store
    flag, the write permissions and the user-data directory as they are,
    and changes no file other than [master.key.enc]. *)
Theorem getOrGenerateMasterKey_frame w :
  exists r w1, getOrGenerateMasterKey w = (inr r, w1)
    /\ userData w1 = userData w
    /\ write_denied w1 = write_denied w
    /\ encryptionAvailable w1 = encryptionAvailable w
    /\ forall p, p <> key_path w -> files w1 !! p = files w !! p.
Proof.
  destruct (getOrGenerateMasterKey_spec w)
    as (r & w1 & Hget & Hu & Hd & Ha & Hf & _).
  by exists r, w1.
Qed.

(** X2: a key that [getOrGenerateMasterKey] returns has exactly 32 bytes,
    and one is returned only while the secret store is available. *)
Theorem getOrGenerateMasterKey_key_length w key w1 :
  getOrGenerateMasterKey w = (inr (Some key), w1) ->
  length key = 32%nat /\ encryptionAvailable w = true.
Proof.
  intros Hget. apply getOrGenerateMasterKey_inv in Hget
    as (Hon & [(_ & Hlen & _)|(w0 & blob & Hrand & _)]); [done|].
  split; [|done].
  destruct (randomBytes_run 32 w) as (k & w0' & Hrand' & Hlen & _).
  rewrite Hrand in Hrand'. by injection Hrand' as <- <-.
Qed.

(** X3: whatever key a call returns, read back or freshly generated, the
    next call returns the same key and leaves the host as it is. *)
Theorem getOrGenerateMasterKey_stable w key w1 :
  key_wrap_roundtrip ->
  getOrGenerateMasterKey w = (inr (Some key), w1) ->
  getOrGenerateMasterKey w1 = (inr (Some key), w1).
Proof.
  intros Hkeys Hget.
  destruct (getOrGenerateMasterKey_persisted w key w1 Hkeys Hget)
    as (Hon & Hu & _ & Hlen & _ & blob & s & Hfile & Hs & <-).
  apply (getOrGenerateMasterKey_stored w1 blob s); try done.
  unfold key_path. rewrite Hu. exact Hfile.
Qed.

(** X4: when the secret store is available, the wrapped-key file is
    writable and what is stored there is absent, does not unwrap or does
    not decode to 32 bytes, the key returned is the next 32 bytes of
    entropy and its wrapped form replaces the content of the file. *)
Theorem getOrGenerateMasterKey_regenerates w :
  key_wrap_roundtrip ->
  encryptionAvailable w = true ->
  key_path w ∉ write_denied w ->
  (files w !! key_path w = None
   \/ exists blob, files w !! key_path w = Some blob
        /\ (failed (decryptString blob)
            \/ exists s, decryptString blob = inr s
                 /\ length (base64_decode s) <> 32%nat)) ->
  exists newKey w0 blob w1,
    randomBytes 32 w = (inr newKey, w0)
    /\ getOrGenerateMasterKey w = (inr (Some newKey), w1)
    /\ encryptString (base64_encode newKey) = inr blob
    /\ files w1 = <[key_path w := blob]> (files w).
Proof.
  intros [_ Hwrap] Hon Hwritable Hbad.
  rewrite getOrGenerateMasterKey_available by done.
  rewrite (bind_run _ _ _ _ _ (loadStoredKey_invalid _ _ Hbad)).
  destruct (randomBytes_run 32 w) as (newKey & w0 & Hrand & _ & _ & Hf & Hd & _).
  destruct (Hwrap (base64_encode newKey)) as (blob & Henc & _).
  exists newKey, w0, blob, (set_files (<[key_path w := blob]> (files w0)) w0).
  split_and!; [done| |done|by simpl; rewrite Hf].
  unfold generateKey. rewrite (bind_run _ _ _ _ _ Hrand).
  unfold try_catch, bind, storeNewKey, bind, lift, writeFileSync, ret.
  rewrite Henc, Hd. by rewrite bool_decide_eq_false_2 by done.
Qed.

(** X5: when no valid key is stored and the wrapped-key file cannot be
    written, the function returns [null] and no file changes: a key that
    could not be persisted is not handed out. *)
Theorem getOrGenerateMasterKey_not_persisted w :
  encryptionAvailable w = true ->
  key_path w ∈ write_denied w ->
  files w !! key_path w = None ->
  exists w1, getOrGenerateMasterKey w = (inr None, w1) /\ files w1 = files w.
Proof.
  intros Hon Hdenied Hnone.
  rewrite getOrGenerateMasterKey_available by done.
  rewrite (bind_run _ _ _ _ _ (loadStoredKey_invalid _ _ (or_introl Hnone))).
  destruct (randomBytes_run 32 w) as (newKey & w0 & Hrand & _ & _ & Hf & Hd & _).
  exists w0. split; [|done].
  unfold generateKey. rewrite (bind_run _ _ _ _ _ Hrand).
  destruct (storeNewKey_denied (key_path w) newKey w0) as [e He];
    [by rewrite Hd|].
  unfold try_catch, bind. by rewrite He.
Qed.

End KeyManagerMore.

(** ** The envelope cipher *)

Lemma randomBytes_inv n w bytes w1 :
  randomBytes n w = (inr bytes, w1) ->
  bytes = map (fun i => entropy w i mod 256) (seq 0 n)
  /\ forall i, entropy w1 i = entropy w (n + i)%nat.
Proof. unfold randomBytes. by intros [= <- <-]. Qed.

Section EnvelopeMore.
Context `{Aead, BufferCodec, JsonCodec}.

(** A run of [encryptData], successful or not, only advances the entropy
    stream by sixteen bytes. *)
Lemma encryptData_inv key (p : json) w r w1 :
  encryptData key p w = (r, w1) ->
  exists iv, randomBytes 16 w = (inr iv, w1) /\ length iv = 16%nat
    /\ forall envelope, r = inr envelope ->
         exists ct tag, envelope = iv ++ tag ++ ct
           /\ gcm_encrypt key iv (utf8_encode (JSON_stringify p)) = inr (ct, tag).
Proof.
  destruct (randomBytes_run 16 w) as (iv & w0 & Hrand & Hiv & _).
  unfold encryptData. rewrite (bind_run _ _ _ _ _ Hrand). unfold bind, lift, ret.
  destruct (gcm_encrypt key iv _) as [e|[ct tag]] eqn:Henc; intros [= <- <-];
    exists iv; split_and!; try done.
  intros envelope [= <-]. by exists ct, tag.
Qed.

Lemma encryptData_frame key (p : json) w r w1 :
  encryptData key p w = (r, w1) ->
  files w1 = files w /\ write_denied w1 = write_denied w
  /\ encryptionAvailable w1 = encryptionAvailable w /\ userData w1 = userData w.
Proof.
  intros Hrun. apply encryptData_inv in Hrun as (iv & Hrand & _).
  destruct (randomBytes_run 16 w) as (iv' & w0 & Hrand' & _ & _ & Hf & Hd & Ha & Hu).
  rewrite Hrand in Hrand'. by injection Hrand' as <- <-.
Qed.

(** X6: two consecutive encryptions take their nonces from consecutive
    windows of the entropy stream, bytes 0..15 and bytes 16..31; each
    envelope starts with its nonce, so the two envelopes differ whenever
    the two windows do, even for the same key and the same record. *)
Theorem encryptData_fresh_nonce key (p q : json) w envelope1 w1 envelope2 w2 :
  encryptData key p w = (inr envelope1, w1) ->
  encryptData key q w1 = (inr envelope2, w2) ->
  take 16 envelope1 = map (fun i => entropy w i mod 256) (seq 0 16)
  /\ take 16 envelope2 = map (fun i => entropy w i mod 256) (seq 16 16)
  /\ (map (fun i => entropy w i mod 256) (seq 0 16)
      <> map (fun i => entropy w i mod 256) (seq 16 16) ->
      envelope1 <> envelope2).
Proof.
  intros Hrun1 Hrun2.
  apply encryptData_inv in Hrun1 as (iv1 & Hrand1 & Hlen1 & Henv1).
  apply encryptData_inv in Hrun2 as (iv2 & Hrand2 & Hlen2 & Henv2).
  destruct (Henv1 _ eq_refl) as (ct1 & tag1 & -> & _).
  destruct (Henv2 _ eq_refl) as (ct2 & tag2 & -> & _).
  rewrite !take_app_length' by done.
  apply randomBytes_inv in Hrand1 as [Hiv1 Hnext].
  apply randomBytes_inv in Hrand2 as [Hiv2 _].
  assert (Hiv2' : iv2 = map (fun i => entropy w i mod 256) (seq 16 16)).
  { rewrite Hiv2. cbn [seq map]. by rewrite !Hnext. }
  split_and!; [done|done|]. rewrite <- Hiv1, <- Hiv2'. intros Hne E. apply Hne.
  apply (f_equal (take 16)) in E.
  by rewrite !take_app_length' in E by done.
Qed.

(** X7: under a 32-byte key the envelope is 32 bytes longer than the UTF-8
    text of the record, and producing it changes no file. *)
Theorem encryptData_length key (p : json) w :
  aead_correct -> aead_length_preserving -> length key = 32%nat ->
  exists envelope w1,
    encryptData key p w = (inr envelope, w1)
    /\ length envelope = (32 + length (utf8_encode (JSON_stringify p)))%nat
    /\ files w1 = files w.
Proof.
  intros Hok Hlen Hkey.
  destruct (encryptData_run key p w Hok Hkey)
    as (iv & tag & ct & w1 & Hrun & _ & Hiv & Htag & _ & Hdec).
  exists (iv ++ tag ++ ct), w1. split_and!; [done| |].
  - rewrite !length_app, Hiv, Htag. apply Hlen in Hdec. lia.
  - by destruct (encryptData_frame _ _ _ _ _ Hrun).
Qed.

End EnvelopeMore.

(** ** The vault handlers *)

Section VaultMore.
Context `{Aead, BufferCodec, JsonCodec, SafeStorage}.

(** What a run of [auth:save-credentials] can do to the host. *)
Lemma save_credentials_run (data : json) w :
  exists b w1, save_credentials data w = (inr b, w1)
    /\ userData w1 = userData w
    /\ write_denied w1 = write_denied w
    /\ encryptionAvailable w1 = encryptionAvailable w
    /\ (forall p, p <> key_path w -> p <> data_path w ->
          files w1 !! p = files w !! p)
    /\ (b = false -> files w1 !! data_path w = files w !! data_path w).
Proof.
  destruct (getOrGenerateMasterKey_spec w)
    as (o & wa & Hget & Hua & Hda & Haa & Hfa & _).
  assert (Hdp : files wa !! data_path w = files w !! data_path w)
    by (apply Hfa; intros E; by apply (key_path_ne_data_path w)).
  unfold save_credentials. rewrite (bind_run _ _ _ _ _ Hget).
  destruct o as [key|]; [|exists false, wa; split_and!; eauto].
  unfold try_catch, bind at 1.
  destruct (encryptData key data wa) as [[e|envelope] wb] eqn:Hrun;
    destruct (encryptData_frame _ _ _ _ _ Hrun) as (Hfb & Hdb & Hab & Hub).
  - exists false, wb. rewrite Hfb, Hdb, Hab, Hub. split_and!; eauto.
  - unfold bind at 1, getDataPath. unfold bind, writeFileSync, ret.
    assert (Hpath : data_path wb = data_path w)
      by (unfold data_path; by rewrite Hub, Hua).
    rewrite Hpath. case_bool_decide.
    + exists false, wb. rewrite Hfb, Hdb, Hab, Hub. split_and!; eauto.
    + exists true, (set_files (<[data_path w := envelope]> (files wb)) wb).
      simpl. rewrite Hfb, Hdb, Hab, Hub. split_and!; try done.
      intros p Hk Hd. rewrite lookup_insert_ne by done. by apply Hfa.
Qed.

(** What a run of [auth:load-credentials] can do to the host. *)
Lemma load_credentials_run w :
  exists r w1, load_credentials w = (inr r, w1)
    /\ userData w1 = userData w
    /\ write_denied w1 = write_denied w
    /\ encryptionAvailable w1 = encryptionAvailable w
    /\ forall p, p <> key_path w -> files w1 !! p = files w !! p.
Proof.
  destruct (files w !! data_path w) as [envelope|] eqn:Hfile;
    [|rewrite load_credentials_absent by done; by eexists _, _].
  rewrite (load_credentials_present w envelope) by done.
  destruct (getOrGenerateMasterKey_spec w)
    as (o & wa & Hget & Hua & Hda & Haa & Hfa & _).
  rewrite (bind_run _ _ _ _ _ Hget).
  destruct o as [key|]; [|by exists None, wa].
  unfold try_catch, bind at 1, readFileSync.
  destruct (files wa !! data_path w); [|by exists None, wa].
  unfold bind, lift, ret.
  destruct (decryptData key _); by eexists _, wa.
Qed.

(** X8: [auth:save-credentials] never rejects and changes no file other
    than [master.key.enc] and [user-data.bin]; when it answers [false] the
    vault file is as it was. *)
Theorem save_credentials_frame (data : json) w :
  exists b w1, save_credentials data w = (inr b, w1)
    /\ (forall p, p <> key_path w -> p <> data_path w ->
          files w1 !! p = files w !! p)
    /\ (b = false -> files w1 !! data_path w = files w !! data_path w).
Proof.
  destruct (save_credentials_run data w) as (b & w1 & Hrun & _ & _ & _ & Hf & Hfalse).
  by exists b, w1.
Qed.

(** X9: [auth:load-credentials] changes no file other than
    [master.key.enc]: the vault file stays in place whether or not it
    could be decrypted. *)
Theorem load_credentials_frame w :
  exists r w1, load_credentials w = (inr r, w1)
    /\ forall p, p <> key_path w -> files w1 !! p = files w !! p.
Proof.
  destruct (load_credentials_run w) as (r & w1 & Hrun & _ & _ & _ & Hf).
  by exists r, w1.
Qed.

(** X10: the vault round trip.  With the secret store available and both
    vault files writable, a save answers [true] and the load that follows
    returns the record that was saved. *)
Theorem vault_round_trip (data : json) w :
  aead_correct -> json_roundtrip -> key_wrap_roundtrip ->
  encryptionAvailable w = true ->
  key_path w ∉ write_denied w ->
  data_path w ∉ write_denied w ->
  exists w1, save_credentials data w = (inr true, w1)
    /\ load_credentials w1 = (inr (Some data), w1).
Proof. apply save_then_load. Qed.

(** X11: the vault holds one record.  After two saves the load returns the
    record of the second. *)
Theorem vault_single_slot (first second : json) w :
  aead_correct -> json_roundtrip -> key_wrap_roundtrip ->
  encryptionAvailable w = true ->
  key_path w ∉ write_denied w ->
  data_path w ∉ write_denied w ->
  exists w1 w2,
    save_credentials first w = (inr true, w1)
    /\ save_credentials second w1 = (inr true, w2)
    /\ load_credentials w2 = (inr (Some second), w2).
Proof.
  intros Haead Hjson Hkeys Hon Hkp Hdp.
  destruct (save_then_load first w Haead Hjson Hkeys Hon Hkp Hdp) as (w1 & Hsave1 & _).
  destruct (save_credentials_run first w) as (b & w1' & Hrun & Hu & Hd & Ha & _).
  rewrite Hsave1 in Hrun. injection Hrun as <- <-.
  assert (Hkp1 : key_path w1 = key_path w) by (unfold key_path; by rewrite Hu).
  assert (Hdp1 : data_path w1 = data_path w) by (unfold data_path; by rewrite Hu).
  destruct (save_then_load second w1 Haead Hjson Hkeys) as (w2 & Hsave2 & Hload2).
  - by rewrite Ha.
  - by rewrite Hkp1, Hd.
  - by rewrite Hdp1, Hd.
  - by exists w1, w2.
Qed.

End VaultMore.

(** ** The signing pipeline *)

Section PipelineMore.
Context `{PdfToolkit}.

(** The handler's [try] is the document stages between two file reads,
    followed by the signer and the one write. *)
Lemma sign_pdf_try_stages args w :
  sign_pdf_try args w
  = (let* pdfBuffer := readFileSync (filePath args) in
     let* pdfWithPlaceholder := lift (placeholder_stage args pdfBuffer) in
     let* certPresent := existsSync (certPath args) in
     do (if negb certPresent then throw (Error "Certificate file not found") else ret tt) then
     let* p12Buffer := readFileSync (certPath args) in
     let* signedPdf := lift (signpdf_sign pdfWithPlaceholder p12Buffer
                               (str_or (password args) "")) in
     let outputPath := replace_pdf_suffix (filePath args) in
     do writeFileSync outputPath signedPdf then
     ret outputPath) w.
Proof.
  unfold sign_pdf_try, placeholder_stage, bind, lift.
  destruct (readFileSync (filePath args) w) as [[e|pdfBuffer] w0]; [done|].
  destruct (PDFDocument_load pdfBuffer) as [e|pdfDoc]; [done|]. cbn [rbind].
  destruct (array_get _ _) as [page|]; [|done]. cbn [rbind].
  destruct (embedFont _ _) as [e|[font pdfDoc1]]; [done|]. cbn [rbind].
  destruct (drawLabel _ _ _ _ _) as [e|pdfDoc2]; [done|]. cbn [rbind].
  destruct (save _) as [e|modified]; [done|]. cbn [rbind].
  by destruct (plainAddPlaceholder _) as [e|placeholder].
Qed.

Lemma sign_pdf_try_after_stages args w pdfBuffer :
  files w !! filePath args = Some pdfBuffer ->
  sign_pdf_try args w
  = (let* pdfWithPlaceholder := lift (placeholder_stage args pdfBuffer) in
     let* certPresent := existsSync (certPath args) in
     do (if negb certPresent then throw (Error "Certificate file not found") else ret tt) then
     let* p12Buffer := readFileSync (certPath args) in
     let* signedPdf := lift (signpdf_sign pdfWithPlaceholder p12Buffer
                               (str_or (password args) "")) in
     let outputPath := replace_pdf_suffix (filePath args) in
     do writeFileSync outputPath signedPdf then
     ret outputPath) w.
Proof.
  intros Hfile. rewrite sign_pdf_try_stages.
  by rewrite (bind_run _ _ w pdfBuffer w) by (unfold readFileSync; by rewrite Hfile).
Qed.

Lemma sign_pdf_try_after_certificate args w pdfBuffer placeholder p12 :
  files w !! filePath args = Some pdfBuffer ->
  placeholder_stage args pdfBuffer = inr placeholder ->
  files w !! certPath args = Some p12 ->
  sign_pdf_try args w
  = (let* signedPdf := lift (signpdf_sign placeholder p12 (str_or (password args) "")) in
     let outputPath := replace_pdf_suffix (filePath args) in
     do writeFileSync outputPath signedPdf then
     ret outputPath) w.
Proof.
  intros Hfile Hstage Hcert. rewrite (sign_pdf_try_after_stages _ _ _ Hfile).
  rewrite (bind_run _ _ w placeholder w) by (unfold lift; by rewrite Hstage).
  rewrite (bind_run _ _ w true w)
    by (unfold existsSync; by rewrite Hcert, bool_decide_eq_true_2 by eauto).
  cbn [negb]. rewrite (bind_run _ _ w tt w) by done.
  by rewrite (bind_run _ _ w p12 w) by (unfold readFileSync; by rewrite Hcert).
Qed.

(** X12: the handler changes at most one file, the one at the output
    path, and nothing else of the host; when it answers with a failure the
    host is exactly as it was. *)
Theorem sign_pdf_frame args w r w1 :
  sign_pdf args w = (r, w1) ->
  userData w1 = userData w
  /\ write_denied w1 = write_denied w
  /\ encryptionAvailable w1 = encryptionAvailable w
  /\ (forall p, p <> replace_pdf_suffix (filePath args) ->
        files w1 !! p = files w !! p)
  /\ (forall msg, r = inr (SignFailure msg) -> w1 = w).
Proof.
  destruct (sign_pdf_spec args w) as [(msg & -> & _)|[signedPdf ->]];
    intros [= <- <-]; split_and!; try done.
  intros p Hp. simpl. by rewrite lookup_insert_ne.
Qed.

(** X13: when no file exists at [filePath] the handler answers with the
    [ENOENT] message of the failed read, and the host is unchanged. *)
Theorem sign_pdf_missing_document args w :
  files w !! filePath args = None ->
  sign_pdf args w
  = (inr (SignFailure ("ENOENT: no such file or directory, open '"
                       +:+ filePath args +:+ "'")), w).
Proof.
  intros Hnone.
  assert (Hbody : sign_pdf_try args w
    = (inl (Error ("ENOENT: no such file or directory, open '"
                   +:+ filePath args +:+ "'")), w)).
  { unfold sign_pdf_try. apply bind_throw. unfold readFileSync. by rewrite Hnone. }
  by rewrite (sign_pdf_caught _ _ _ _ Hbody).
Qed.

(** X14: an error of the document stages (parsing, page lookup, font,
    drawing, saving, placeholder) is what the handler reports, with its
    message or [Unknown error] when the message is empty, whether or not
    the certificate exists: the certificate is looked at only afterwards. *)
Theorem sign_pdf_document_error args w pdfBuffer e :
  files w !! filePath args = Some pdfBuffer ->
  placeholder_stage args pdfBuffer = inl e ->
  sign_pdf args w
  = (inr (SignFailure (str_or (err_message e) "Unknown error")), w).
Proof.
  intros Hfile Hstage. apply sign_pdf_caught.
  rewrite (sign_pdf_try_after_stages _ _ _ Hfile).
  apply bind_throw. unfold lift. by rewrite Hstage.
Qed.

(** X15: when the document stages succeed and no file exists at
    [certPath], the handler answers [Certificate file not found] and
    writes nothing. *)
Theorem sign_pdf_missing_certificate args w pdfBuffer placeholder :
  files w !! filePath args = Some pdfBuffer ->
  placeholder_stage args pdfBuffer = inr placeholder ->
  files w !! certPath args = None ->
  sign_pdf args w = (inr (SignFailure "Certificate file not found"), w).
Proof.
  intros Hfile Hstage Hcert.
  assert (Hbody : sign_pdf_try args w
                  = (inl (Error "Certificate file not found"), w)).
  { rewrite (sign_pdf_try_after_stages _ _ _ Hfile).
    rewrite (bind_run _ _ w placeholder w) by (unfold lift; by rewrite Hstage).
    rewrite (bind_run _ _ w false w).
    - cbn [negb]. by apply bind_throw.
    - unfold existsSync. rewrite Hcert.
      by rewrite bool_decide_eq_false_2 by (by intros [? ?]). }
  by rewrite (sign_pdf_caught _ _ _ _ Hbody).
Qed.

(** X16: an error of the signer, a wrong passphrase for instance, is
    reported with the signer's own message, and no output file is
    written. *)
Theorem sign_pdf_signer_error args w pdfBuffer placeholder p12 e :
  files w !! filePath args = Some pdfBuffer ->
  placeholder_stage args pdfBuffer = inr placeholder ->
  files w !! certPath args = Some p12 ->
  signpdf_sign placeholder p12 (str_or (password args) "") = inl e ->
  sign_pdf args w
  = (inr (SignFailure (str_or (err_message e) "Unknown error")), w).
Proof.
  intros Hfile Hstage Hcert Hsign. apply sign_pdf_caught.
  rewrite (sign_pdf_try_after_certificate _ _ _ _ _ Hfile Hstage Hcert).
  apply bind_throw. unfold lift. by rewrite Hsign.
Qed.

(** X17: the handler answers with success exactly when the document is
    there, the document stages succeed, the certificate is there, the
    signer succeeds and the output path can be written; the path it
    returns is the output path, and the file written there holds what the
    signer returned for the placeholder document. *)
Theorem sign_pdf_success_iff args w out w1 :
  sign_pdf args w = (inr (SignSuccess out), w1)
  <-> exists pdfBuffer placeholder p12 signedPdf,
        files w !! filePath args = Some pdfBuffer
        /\ placeholder_stage args pdfBuffer = inr placeholder
        /\ files w !! certPath args = Some p12
        /\ signpdf_sign placeholder p12 (str_or (password args) "") = inr signedPdf
        /\ out = replace_pdf_suffix (filePath args)
        /\ (out ∉ write_denied w)
        /\ w1 = set_files (<[out := signedPdf]> (files w)) w.
Proof.
  split.
  - intros Hrun. unfold sign_pdf, try_catch, bind at 1 in Hrun.
    destruct (sign_pdf_try args w) as [[e|out'] w'] eqn:Hbody; [discriminate|].
    injection Hrun as -> ->.
    rewrite sign_pdf_try_stages in Hbody.
    unfold bind, readFileSync, lift, existsSync, throw, writeFileSync, ret in Hbody.
    destruct (files w !! filePath args) as [pdfBuffer|]; [|discriminate].
    destruct (placeholder_stage args pdfBuffer) as [e|placeholder] eqn:Hstage;
      [discriminate|].
    destruct (files w !! certPath args) as [p12|] eqn:Hcert;
      [rewrite bool_decide_eq_true_2 in Hbody by eauto
      |rewrite bool_decide_eq_false_2 in Hbody by (by intros [? ?]); discriminate].
    cbn [negb] in Hbody. rewrite Hcert in Hbody.
    destruct (signpdf_sign placeholder p12 _) as [e|signedPdf] eqn:Hsign;
      [discriminate|].
    case_bool_decide; [discriminate|].
    injection Hbody as <- <-.
    exists pdfBuffer, placeholder, p12, signedPdf. by split_and!.
  - intros (pdfBuffer & placeholder & p12 & signedPdf
            & Hfile & Hstage & Hcert & Hsign & -> & Hw & ->).
    apply sign_pdf_returned.
    rewrite (sign_pdf_try_after_certificate _ _ _ _ _ Hfile Hstage Hcert).
    unfold bind, lift, writeFileSync, ret. rewrite Hsign.
    by rewrite bool_decide_eq_false_2.
Qed.

End PipelineMore.

(** ** The handler as it is invoked *)

Section HandlerOutcomes.
Context `{PdfToolkit}.

Lemma sign_pdf_handler_object fields w :
  sign_pdf_handler (ArgsObject fields) w = sign_pdf fields w.
Proof. reflexivity. Qed.

Lemma sign_pdf_try_write args w pdfBuffer placeholder p12 signedPdf :
  files w !! filePath args = Some pdfBuffer ->
  placeholder_stage args pdfBuffer = inr placeholder ->
  files w !! certPath args = Some p12 ->
  signpdf_sign placeholder p12 (str_or (password args) "") = inr signedPdf ->
  sign_pdf_try args w
  = (do writeFileSync (replace_pdf_suffix (filePath args)) signedPdf then
     ret (replace_pdf_suffix (filePath args))) w.
Proof.
  intros Hfile Hstage Hcert Hsign.
  rewrite (sign_pdf_try_after_certificate _ _ _ _ _ Hfile Hstage Hcert).
  by rewrite (bind_run _ _ w signedPdf w) by (unfold lift; by rewrite Hsign).
Qed.

(** C10, as the code has it: invoked with a request object the handler
    always resolves.  Each error thrown inside its [try] (the missing
    document, an error of the document stages such as a PDF that does not
    parse, the missing certificate, an error of the signer such as a wrong
    passphrase, the refused write) becomes [{ success: false, error }] with
    a non-empty [error] and an unchanged host, and a run without error
    becomes [{ success: true, path }]; there is no other outcome.  The
    invocation rejects exactly when [args] is [undefined] or [null]: the
    destructuring stands before the [try]. *)
Theorem sign_pdf_handler_outcomes args w :
  ((exists e w1, sign_pdf_handler args w = (inl e, w1))
   <-> args = ArgsUndefined \/ args = ArgsNull)
  /\ (forall e w1, sign_pdf_handler args w = (inl e, w1) ->
        w1 = w /\ err_name e = "TypeError"%string)
  /\ (forall msg w1, sign_pdf_handler args w = (inr (SignFailure msg), w1) ->
        msg <> ""%string /\ w1 = w)
  /\ (forall fields, args = ArgsObject fields ->
      let out := replace_pdf_suffix (filePath fields) in
      (files w !! filePath fields = None
       /\ sign_pdf_handler args w
          = (inr (SignFailure ("ENOENT: no such file or directory, open '"
                               +:+ filePath fields +:+ "'")), w))
      \/ (exists pdfBuffer e,
            files w !! filePath fields = Some pdfBuffer
            /\ placeholder_stage fields pdfBuffer = inl e
            /\ sign_pdf_handler args w
               = (inr (SignFailure (str_or (err_message e) "Unknown error")), w))
      \/ (exists pdfBuffer placeholder,
            files w !! filePath fields = Some pdfBuffer
            /\ placeholder_stage fields pdfBuffer = inr placeholder
            /\ files w !! certPath fields = None
            /\ sign_pdf_handler args w
               = (inr (SignFailure "Certificate file not found"), w))
      \/ (exists pdfBuffer placeholder p12 e,
            files w !! filePath fields = Some pdfBuffer
            /\ placeholder_stage fields pdfBuffer = inr placeholder
            /\ files w !! certPath fields = Some p12
            /\ signpdf_sign placeholder p12 (str_or (password fields) "") = inl e
            /\ sign_pdf_handler args w
               = (inr (SignFailure (str_or (err_message e) "Unknown error")), w))
      \/ (exists pdfBuffer placeholder p12 signedPdf,
            files w !! filePath fields = Some pdfBuffer
            /\ placeholder_stage fields pdfBuffer = inr placeholder
            /\ files w !! certPath fields = Some p12
            /\ signpdf_sign placeholder p12 (str_or (password fields) "") = inr signedPdf
            /\ out ∈ write_denied w
            /\ sign_pdf_handler args w
               = (inr (SignFailure ("EACCES: permission denied, open '"
                                    +:+ out +:+ "'")), w))
      \/ (exists pdfBuffer placeholder p12 signedPdf,
            files w !! filePath fields = Some pdfBuffer
            /\ placeholder_stage fields pdfBuffer = inr placeholder
            /\ files w !! certPath fields = Some p12
            /\ signpdf_sign placeholder p12 (str_or (password fields) "") = inr signedPdf
            /\ (out ∉ write_denied w)
            /\ sign_pdf_handler args w
               = (inr (SignSuccess out), set_files (<[out := signedPdf]> (files w)) w))).
Proof.
  split_and!.
  - split.
    + intros (e & w1 & Hrej). destruct args as [| |fields]; [by left|by right|].
      rewrite sign_pdf_handler_object in Hrej.
      destruct (sign_pdf_spec fields w) as [(msg & Hfail & _)|[signedPdf Hok]];
        rewrite Hrej in *; discriminate.
    + intros [->| ->]; by eexists _, _.
  - intros e w1. destruct args as [| |fields].
    + by intros [= <- <-].
    + by intros [= <- <-].
    + rewrite sign_pdf_handler_object.
      destruct (sign_pdf_spec fields w) as [(msg & -> & _)|[signedPdf ->]];
        discriminate.
  - intros msg w1. destruct args as [| |fields]; [discriminate..|].
    rewrite sign_pdf_handler_object.
    destruct (sign_pdf_spec fields w) as [(msg' & -> & Hmsg)|[signedPdf ->]];
      [by intros [= <- <-]|discriminate].
  - intros fields -> out. rewrite sign_pdf_handler_object.
    destruct (files w !! filePath fields) as [pdfBuffer|] eqn:Hfile.
    2:{ left. split; [done|].
        assert (Hbody : sign_pdf_try fields w
          = (inl (Error ("ENOENT: no such file or directory, open '"
                         +:+ filePath fields +:+ "'")), w)).
        { unfold sign_pdf_try. apply bind_throw. unfold readFileSync.
          by rewrite Hfile. }
        by rewrite (sign_pdf_caught _ _ _ _ Hbody). }
    right.
    destruct (placeholder_stage fields pdfBuffer) as [e|placeholder] eqn:Hstage.
    { left. exists pdfBuffer, e. split_and!; [done..|].
      apply sign_pdf_caught. rewrite (sign_pdf_try_after_stages _ _ _ Hfile).
      apply bind_throw. unfold lift. by rewrite Hstage. }
    right.
    destruct (files w !! certPath fields) as [p12|] eqn:Hcert.
    2:{ left. exists pdfBuffer, placeholder. split_and!; [done..|].
        assert (Hbody : sign_pdf_try fields w
                        = (inl (Error "Certificate file not found"), w)).
        { rewrite (sign_pdf_try_after_stages _ _ _ Hfile).
          rewrite (bind_run _ _ w placeholder w) by (unfold lift; by rewrite Hstage).
          rewrite (bind_run _ _ w false w).
          - cbn [negb]. by apply bind_throw.
          - unfold existsSync. rewrite Hcert.
            by rewrite bool_decide_eq_false_2 by (by intros [? ?]). }
        by rewrite (sign_pdf_caught _ _ _ _ Hbody). }
    right.
    destruct (signpdf_sign placeholder p12 (str_or (password fields) ""))
      as [e|signedPdf] eqn:Hsign.
    { left. exists pdfBuffer, placeholder, p12, e. split_and!; [done..|].
      apply sign_pdf_caught.
      rewrite (sign_pdf_try_after_certificate _ _ _ _ _ Hfile Hstage Hcert).
      apply bind_throw. unfold lift. by rewrite Hsign. }
    right.
    destruct (decide (out ∈ write_denied w)) as [Hdenied|Hfree].
    + left. exists pdfBuffer, placeholder, p12, signedPdf. split_and!; [done..|].
      assert (Hbody : sign_pdf_try fields w
        = (inl (Error ("EACCES: permission denied, open '" +:+ out +:+ "'")), w)).
      { rewrite (sign_pdf_try_write _ _ _ _ _ _ Hfile Hstage Hcert Hsign).
        apply bind_throw. unfold writeFileSync. by rewrite bool_decide_eq_true_2. }
      by rewrite (sign_pdf_caught _ _ _ _ Hbody).
    + right. exists pdfBuffer, placeholder, p12, signedPdf. split_and!; [done..|].
      apply sign_pdf_returned.
      rewrite (sign_pdf_try_write _ _ _ _ _ _ Hfile Hstage Hcert Hsign).
      unfold bind, writeFileSync, ret. by rewrite bool_decide_eq_false_2.
Qed.

End HandlerOutcomes.

(** ** The handler on the mock host *)

Section HandlerExamples.
#[local] Existing Instance Mock.toolkit.

(** Invoked without a request object the handler does not resolve: the
    destructuring throws before the [try] is entered, and no
    [{ success: false, error }] is produced. *)
Lemma sign_pdf_handler_rejects_undefined :
  sign_pdf_handler ArgsUndefined Mock.fresh
  = (inl (TypeError "Cannot destructure property 'filePath' of 'args' as it is undefined."),
     Mock.fresh)
  /\ sign_pdf_handler ArgsNull Mock.fresh
     = (inl (TypeError "Cannot destructure property 'filePath' of 'args' as it is null."),
        Mock.fresh)
  /\ ~ (exists r w1, sign_pdf_handler ArgsUndefined Mock.fresh = (inr r, w1))
  /\ ~ (exists r w1, sign_pdf_handler ArgsNull Mock.fresh = (inr r, w1)).
Proof.
  split_and!; [reflexivity|reflexivity|..];
    intros (r & w1 & E); discriminate E.
Qed.

Lemma sign_pdf_handler_outcomes_witness :
  sign_pdf_handler (ArgsObject (Mock.request "/docs/none.pdf" 0)) Mock.fresh
  = (inr (SignFailure "ENOENT: no such file or directory, open '/docs/none.pdf'"),
     Mock.fresh)
  /\ "ENOENT: no such file or directory, open '/docs/none.pdf'"%string <> ""%string
  /\ Mock.fresh = Mock.fresh.
Proof.
  split; [vm_compute; reflexivity|].
  apply (proj1 (proj2 (proj2
           (sign_pdf_handler_outcomes
              (ArgsObject (Mock.request "/docs/none.pdf" 0)) Mock.fresh)))
           "ENOENT: no such file or directory, open '/docs/none.pdf'" Mock.fresh).
  vm_compute. reflexivity.
Defined.

End HandlerExamples.

(** ** The output path and the read handler *)

Lemma replace_pdf_suffix_fixed s :
  replace_pdf_suffix s = s ->
  forall stem ext, s = stem +:+ ext -> is_dot_pdf ext = false.
Proof.
  intros Hfixed stem ext -> .
  destruct (is_dot_pdf ext) eqn:Hext; [|done].
  rewrite replace_pdf_suffix_match in Hfixed by done.
  by apply signed_path_differs in Hfixed.
Qed.

(** X18: the output path equals the input path exactly when the input does
    not end in [.pdf] (in either case); when it does, these four characters
    are replaced by [_signed.pdf] and the path grows by seven characters. *)
Theorem replace_pdf_suffix_fixed_iff s :
  (replace_pdf_suffix s = s
   <-> forall stem ext, s = stem +:+ ext -> is_dot_pdf ext = false)
  /\ (forall stem ext, s = stem +:+ ext -> is_dot_pdf ext = true ->
        replace_pdf_suffix s = stem +:+ "_signed.pdf"
        /\ String.length (replace_pdf_suffix s) = (String.length s + 7)%nat).
Proof.
  split; [split|].
  - apply replace_pdf_suffix_fixed.
  - apply replace_pdf_suffix_no_match.
  - intros stem ext -> Hext. rewrite replace_pdf_suffix_match by done.
    split; [done|]. rewrite !string_length_app.
    apply is_dot_pdf_length in Hext. rewrite Hext. simpl. lia.
Qed.

Section ReadBack.
Context `{PdfToolkit}.

(** X19: for a path that does not end in [.pdf] the output path is the
    input path, so a successful run replaces the input file with the
    signed document. *)
Theorem sign_pdf_overwrites_input args w out w1 :
  (forall stem ext, filePath args = stem +:+ ext -> is_dot_pdf ext = false) ->
  sign_pdf args w = (inr (SignSuccess out), w1) ->
  out = filePath args
  /\ exists signedPdf,
       files w1 = <[filePath args := signedPdf]> (files w).
Proof.
  intros Hno Hrun. apply replace_pdf_suffix_no_match in Hno.
  destruct (sign_pdf_spec args w) as [(msg & Hfail & _)|[signedPdf Hok]];
    rewrite Hrun in *; [discriminate|].
  injection Hok as -> ->. rewrite Hno. split; [done|]. by exists signedPdf.
Qed.

(** X20: after a successful run, [read-file-buffer] on the returned path
    resolves with the bytes that were written there; on a path where no
    file exists it rejects with the error of the read, where [sign-pdf]
    would resolve with a failure. *)
Theorem read_file_buffer_after_sign args w out w1 :
  sign_pdf args w = (inr (SignSuccess out), w1) ->
  (exists signedPdf,
     files w1 = <[out := signedPdf]> (files w)
     /\ read_file_buffer out w1 = (inr signedPdf, w1))
  /\ (forall missing, files w1 !! missing = None ->
        exists e, read_file_buffer missing w1 = (inl e, w1)).
Proof.
  intros Hrun. split.
  - destruct (sign_pdf_spec args w) as [(msg & Hfail & _)|[signedPdf Hok]];
      rewrite Hrun in *; [discriminate|].
    injection Hok as -> ->. exists signedPdf. split; [done|].
    unfold read_file_buffer, try_catch, readFileSync. simpl.
    by rewrite lookup_insert_eq.
  - intros missing Hnone. unfold read_file_buffer, try_catch, readFileSync, throw.
    rewrite Hnone. by eexists.
Qed.

End ReadBack.

(** ** These properties on the mock host *)

Section MainProcessExamples.
#[local] Existing Instances Mock.aead Mock.codec Mock.json_codec Mock.safe_storage
  Mock.toolkit.

Lemma getOrGenerateMasterKey_key_length_witness :
  length Mock.key0 = 32%nat /\ encryptionAvailable Mock.enrolled = true.
Proof.
  apply (getOrGenerateMasterKey_key_length Mock.enrolled Mock.key0 Mock.enrolled).
  vm_compute. reflexivity.
Defined.

Lemma getOrGenerateMasterKey_stable_witness :
  exists key w1,
    getOrGenerateMasterKey Mock.fresh = (inr (Some key), w1)
    /\ getOrGenerateMasterKey w1 = (inr (Some key), w1).
Proof.
  eexists _, _. split; [reflexivity|].
  apply (getOrGenerateMasterKey_stable Mock.fresh _ _ mock_key_wrap_roundtrip).
  reflexivity.
Defined.

Lemma getOrGenerateMasterKey_regenerates_witness :
  exists newKey w0 blob w1,
    randomBytes 32 Mock.corrupted = (inr newKey, w0)
    /\ getOrGenerateMasterKey Mock.corrupted = (inr (Some newKey), w1)
    /\ encryptString (base64_encode newKey) = inr blob
    /\ files w1 = <[key_path Mock.corrupted := blob]> (files Mock.corrupted).
Proof.
  apply (getOrGenerateMasterKey_regenerates Mock.corrupted mock_key_wrap_roundtrip).
  - reflexivity.
  - vm_compute. set_solver.
  - right. exists [1; 2; 3]. split; [vm_compute; reflexivity|].
    left. eexists. reflexivity.
Defined.

Lemma getOrGenerateMasterKey_not_persisted_witness :
  exists w1, getOrGenerateMasterKey Mock.read_only = (inr None, w1)
    /\ files w1 = files Mock.read_only.
Proof.
  apply (getOrGenerateMasterKey_not_persisted Mock.read_only).
  - reflexivity.
  - vm_compute. set_solver.
  - vm_compute. reflexivity.
Defined.

Lemma encryptData_fresh_nonce_witness :
  exists envelope1 envelope2,
    take 16 envelope1 = map (fun i => entropy Mock.fresh i mod 256) (seq 0 16)
    /\ take 16 envelope2 = map (fun i => entropy Mock.fresh i mod 256) (seq 16 16)
    /\ (map (fun i => entropy Mock.fresh i mod 256) (seq 0 16)
        <> map (fun i => entropy Mock.fresh i mod 256) (seq 16 16) ->
        envelope1 <> envelope2).
Proof.
  eexists _, _.
  eapply (encryptData_fresh_nonce Mock.key0 (Mock.value "pw") (Mock.value "pw")
            Mock.fresh); reflexivity.
Defined.

Lemma encryptData_length_witness :
  exists envelope w1,
    encryptData Mock.key0 (Mock.value "pw") Mock.fresh = (inr envelope, w1)
    /\ length envelope
       = (32 + length (utf8_encode (JSON_stringify (Mock.value "pw"))))%nat
    /\ files w1 = files Mock.fresh.
Proof.
  apply (encryptData_length Mock.key0 (Mock.value "pw") Mock.fresh
           mock_aead_correct mock_aead_length_preserving).
  reflexivity.
Defined.

Lemma vault_round_trip_witness :
  exists w1, save_credentials (Mock.value "pw") Mock.fresh = (inr true, w1)
    /\ load_credentials w1 = (inr (Some (Mock.value "pw")), w1).
Proof.
  apply (vault_round_trip (Mock.value "pw") Mock.fresh
           mock_aead_correct mock_json_roundtrip mock_key_wrap_roundtrip).
  - reflexivity.
  - vm_compute. set_solver.
  - vm_compute. set_solver.
Defined.

Lemma vault_single_slot_witness :
  exists w1 w2,
    save_credentials (Mock.value "old") Mock.fresh = (inr true, w1)
    /\ save_credentials (Mock.value "new") w1 = (inr true, w2)
    /\ load_credentials w2 = (inr (Some (Mock.value "new")), w2).
Proof.
  apply (vault_single_slot (Mock.value "old") (Mock.value "new") Mock.fresh
           mock_aead_correct mock_json_roundtrip mock_key_wrap_roundtrip).
  - reflexivity.
  - vm_compute. set_solver.
  - vm_compute. set_solver.
Defined.

Lemma sign_pdf_frame_witness :
  userData Mock.fresh = userData Mock.fresh
  /\ write_denied Mock.fresh = write_denied Mock.fresh
  /\ encryptionAvailable Mock.fresh = encryptionAvailable Mock.fresh
  /\ (forall p, p <> replace_pdf_suffix (filePath (Mock.request "/docs/none.pdf" 0)) ->
        files Mock.fresh !! p = files Mock.fresh !! p)
  /\ (forall msg,
        inr (SignFailure "ENOENT: no such file or directory, open '/docs/none.pdf'")
        = (inr (SignFailure msg) : result SignResult) ->
        Mock.fresh = Mock.fresh).
Proof.
  apply (sign_pdf_frame (Mock.request "/docs/none.pdf" 0) Mock.fresh).
  vm_compute. reflexivity.
Defined.

Lemma sign_pdf_missing_document_witness :
  sign_pdf (Mock.request "/docs/none.pdf" 0) Mock.fresh
  = (inr (SignFailure ("ENOENT: no such file or directory, open '"
                       +:+ "/docs/none.pdf" +:+ "'")), Mock.fresh).
Proof.
  apply (sign_pdf_missing_document (Mock.request "/docs/none.pdf" 0) Mock.fresh).
  vm_compute. reflexivity.
Defined.

Lemma sign_pdf_document_error_witness :
  sign_pdf (Mock.request_with "/docs/id.p12" "/docs/none.p12" "test" 0) Mock.fresh
  = (inr (SignFailure "Failed to parse PDF document"), Mock.fresh).
Proof.
  apply (sign_pdf_document_error
           (Mock.request_with "/docs/id.p12" "/docs/none.p12" "test" 0)
           Mock.fresh [48; 130; 9] (Error "Failed to parse PDF document")).
  - vm_compute. reflexivity.
  - vm_compute. reflexivity.
Defined.

Lemma sign_pdf_missing_certificate_witness :
  sign_pdf (Mock.request_with "/docs/a.pdf" "/docs/none.p12" "test" 0) Mock.fresh
  = (inr (SignFailure "Certificate file not found"), Mock.fresh).
Proof.
  eapply (sign_pdf_missing_certificate
            (Mock.request_with "/docs/a.pdf" "/docs/none.p12" "test" 0)
            Mock.fresh Mock.document).
  - vm_compute. reflexivity.
  - vm_compute. reflexivity.
  - vm_compute. reflexivity.
Defined.

Lemma sign_pdf_signer_error_witness :
  sign_pdf (Mock.request_with "/docs/a.pdf" "/docs/id.p12" "wrong" 0) Mock.fresh
  = (inr (SignFailure "PKCS#12 MAC could not be verified. Invalid password?"),
     Mock.fresh).
Proof.
  eapply (sign_pdf_signer_error
            (Mock.request_with "/docs/a.pdf" "/docs/id.p12" "wrong" 0)
            Mock.fresh Mock.document _ [48; 130; 9]
            (Error "PKCS#12 MAC could not be verified. Invalid password?")).
  - vm_compute. reflexivity.
  - vm_compute. reflexivity.
  - vm_compute. reflexivity.
  - vm_compute. reflexivity.
Defined.

Lemma sign_pdf_overwrites_input_witness :
  "/docs/contract"%string = filePath (Mock.request "/docs/contract" 0)
  /\ exists signedPdf,
       files (set_files (<["/docs/contract"%string := Mock.signed_document]>
                           (files Mock.fresh)) Mock.fresh)
       = <[filePath (Mock.request "/docs/contract" 0) := signedPdf]> (files Mock.fresh).
Proof.
  apply (sign_pdf_overwrites_input (Mock.request "/docs/contract" 0) Mock.fresh).
  - apply replace_pdf_suffix_fixed. vm_compute. reflexivity.
  - vm_compute. reflexivity.
Defined.

Lemma read_file_buffer_after_sign_witness :
  (exists signedPdf,
     files (set_files (<["/docs/a_signed.pdf"%string := Mock.signed_document]>
                         (files Mock.fresh)) Mock.fresh)
     = <["/docs/a_signed.pdf"%string := signedPdf]> (files Mock.fresh)
     /\ read_file_buffer "/docs/a_signed.pdf"
          (set_files (<["/docs/a_signed.pdf"%string := Mock.signed_document]>
                        (files Mock.fresh)) Mock.fresh)
        = (inr signedPdf,
           set_files (<["/docs/a_signed.pdf"%string := Mock.signed_document]>
                        (files Mock.fresh)) Mock.fresh))
  /\ (forall missing,
        files (set_files (<["/docs/a_signed.pdf"%string := Mock.signed_document]>
                            (files Mock.fresh)) Mock.fresh) !! missing = None ->
        exists e,
          read_file_buffer missing
            (set_files (<["/docs/a_signed.pdf"%string := Mock.signed_document]>
                          (files Mock.fresh)) Mock.fresh)
          = (inl e,
             set_files (<["/docs/a_signed.pdf"%string := Mock.signed_document]>
                          (files Mock.fresh)) Mock.fresh)).
Proof.
  apply (read_file_buffer_after_sign (Mock.request "/docs/a.pdf" 0) Mock.fresh).
  vm_compute. reflexivity.
Defined.

End MainProcessExamples.

(** * Properties of the renderer *)

(** ** The edit distance *)

Section EditDistance.
Context {A : Type} `{EqDecision A}.

Local Open Scope nat_scope.

Lemma lev_nil_r (a : list A) : Renderer.lev a [] = length a.
Proof. by destruct a. Qed.

Lemma lev_cons x (a : list A) y b :
  Renderer.lev (x :: a) (y :: b)
  = Nat.min (Renderer.lev a (y :: b) + 1)
      (Nat.min (Renderer.lev (x :: a) b + 1)
         (Renderer.lev a b + if decide (x = y) then 0 else 1)).
Proof. reflexivity. Qed.

Lemma lev_refl (a : list A) : Renderer.lev a a = 0.
Proof.
  induction a as [|x a IH]; [done|].
  rewrite lev_cons, IH. rewrite decide_True by done. lia.
Qed.

Lemma lev_sym (a b : list A) : Renderer.lev a b = Renderer.lev b a.
Proof.
  revert b. induction a as [|x a IHa]; intros b.
  - by rewrite lev_nil_r.
  - induction b as [|y b IHb]; [done|].
    rewrite !lev_cons, IHb, !IHa.
    destruct (decide (x = y)) as [->|Hne].
    + rewrite decide_True by done. lia.
    + rewrite decide_False by (by intros ->). lia.
Qed.

Lemma lev_upper (a b : list A) : Renderer.lev a b <= Nat.max (length a) (length b).
Proof.
  revert b. induction a as [|x a IH]; intros b; [simpl; lia|].
  destruct b as [|y b]; [simpl; lia|].
  rewrite lev_cons. specialize (IH b). simpl. destruct (decide (x = y)); lia.
Qed.

Lemma lev_lower (a b : list A) :
  length a <= Renderer.lev a b + length b /\ length b <= Renderer.lev a b + length a.
Proof.
  revert b. induction a as [|x a IHa]; intros b; [simpl; lia|].
  induction b as [|y b IHb]; [simpl; lia|].
  rewrite lev_cons. pose proof (IHa (y :: b)). pose proof (IHa b).
  simpl in *. destruct (decide (x = y)); lia.
Qed.

Lemma lev_zero (a b : list A) : Renderer.lev a b = 0 -> a = b.
Proof.
  revert b. induction a as [|x a IH]; intros b.
  - simpl. by destruct b.
  - destruct b as [|y b]; [done|]. rewrite lev_cons.
    destruct (decide (x = y)) as [->|Hne]; intros Hzero.
    + f_equal. apply IH. lia.
    + lia.
Qed.

End EditDistance.

(** ** The matrix of [levenshteinDistance] *)

Lemma for_loop_count {St} (P : nat -> St -> Prop)
    (body : nat -> St -> option St) (count lo : nat) (s : St) :
  P lo s ->
  (forall k s, (lo <= k < lo + count)%nat -> P k s ->
     exists s', body k s = Some s' /\ P (S k) s') ->
  exists s', foldl (fun acc k => acc ≫= body k) (Some s) (seq lo count) = Some s'
             /\ P (lo + count)%nat s'.
Proof.
  revert lo s. induction count as [|count IH]; intros lo s Hstart Hstep.
  - exists s. split; [done|]. by rewrite Nat.add_0_r.
  - destruct (Hstep lo s) as (s1 & Hbody & Hnext); [lia|done|].
    cbn [seq foldl]. cbn [mbind option_bind]. rewrite Hbody.
    destruct (IH (S lo) s1) as (s' & Hrun & Hend); [done| |].
    + intros k t Hk. apply Hstep. lia.
    + exists s'. split; [done|]. by replace (lo + S count)%nat with (S lo + count)%nat by lia.
Qed.

(** A loop whose body keeps an invariant runs to its end. *)
Lemma for_loop_invariant {St} (P : nat -> St -> Prop)
    (lo hi : nat) (body : nat -> St -> option St) (s : St) :
  (lo <= S hi)%nat ->
  P lo s ->
  (forall k s, (lo <= k <= hi)%nat -> P k s ->
     exists s', body k s = Some s' /\ P (S k) s') ->
  exists s', Renderer.for_loop lo hi body s = Some s' /\ P (S hi) s'.
Proof.
  intros Hlo Hstart Hstep. unfold Renderer.for_loop.
  destruct (for_loop_count P body (S hi - lo) lo s Hstart) as (s' & Hrun & Hend).
  - intros k t Hk. apply Hstep. lia.
  - exists s'. split; [done|]. by replace (S hi) with (lo + (S hi - lo))%nat by lia.
Qed.

Section Matrix.
Context {A : Type} `{EqDecision A}.
Variables a b : list A.

Local Open Scope nat_scope.

(** The distance between the prefixes of lengths [i] and [j]. *)
Let D (i j : nat) : nat := Renderer.lev (reverse (take i a)) (reverse (take j b)).

Let row_spec (k len : nat) : list (option nat) :=
  map (fun j => Some (D k j)) (seq 0 len).

(** How much of row [k] is filled when the loops stand at cell [i, j]. *)
Let filled (i j k : nat) : nat :=
  if k <? i then S (length b) else if k =? i then j else 1.

Let Inv (i j : nat) (matrix : list (list (option nat))) : Prop :=
  forall k, k <= length a -> matrix !! k = Some (row_spec k (filled i j k)).

Lemma D_0_l j : j <= length b -> D 0 j = j.
Proof. intros Hj. unfold D. simpl. rewrite length_reverse, length_take. lia. Qed.

Lemma D_0_r i : i <= length a -> D i 0 = i.
Proof.
  intros Hi. unfold D. rewrite take_0, reverse_nil.
  rewrite lev_nil_r, length_reverse, length_take. lia.
Qed.

Lemma D_step i j :
  i < length a -> j < length b ->
  D (S i) (S j)
  = Nat.min (D i (S j) + 1)
      (Nat.min (D (S i) j + 1)
         (D i j + if decide (a !! i = b !! j) then 0 else 1)).
Proof.
  intros Hi Hj. unfold D.
  destruct (lookup_lt_is_Some_2 a i Hi) as [x Hx].
  destruct (lookup_lt_is_Some_2 b j Hj) as [y Hy].
  rewrite (take_S_r a i x Hx), (take_S_r b j y Hy), !reverse_snoc, lev_cons.
  rewrite Hx, Hy. do 3 f_equal.
  destruct (decide (x = y)) as [->|Hne].
  - by rewrite decide_True.
  - rewrite decide_False; [done|]. by intros [= ->].
Qed.

Lemma row_spec_length k len : length (row_spec k len) = len.
Proof. unfold row_spec. by rewrite length_map, length_seq. Qed.

Lemma row_spec_lookup k len j : j < len -> row_spec k len !! j = Some (Some (D k j)).
Proof.
  intros Hj. unfold row_spec. rewrite list_lookup_fmap, lookup_seq_lt by done. done.
Qed.

Lemma row_set_next k len :
  Renderer.row_set (row_spec k len) len (D k len) = row_spec k (S len).
Proof.
  unfold Renderer.row_set. rewrite row_spec_length, Nat.ltb_irrefl, Nat.sub_diag.
  unfold row_spec. rewrite seq_S, map_app. done.
Qed.

Lemma Inv_init : Inv 0 1 (Renderer.init_matrix (length a)).
Proof.
  intros k Hk. unfold Renderer.init_matrix.
  rewrite list_lookup_fmap, lookup_seq_lt by lia. simpl.
  assert (filled 0 1 k = 1) as -> by (unfold filled; by destruct k).
  unfold row_spec. simpl. by rewrite D_0_r.
Qed.

Lemma Inv_next_row i matrix : Inv i (S (length b)) matrix -> Inv (S i) 1 matrix.
Proof.
  intros Hinv k Hk. rewrite (Hinv k Hk). do 2 f_equal. unfold filled.
  destruct (k <? i) eqn:E1; destruct (k <? S i) eqn:E2;
    destruct (k =? i) eqn:E3; destruct (k =? S i) eqn:E4;
    rewrite ?Nat.ltb_lt, ?Nat.ltb_ge, ?Nat.eqb_eq, ?Nat.eqb_neq in *; lia.
Qed.

Lemma Inv_get i j matrix k c :
  Inv i j matrix -> k <= length a -> c < filled i j k ->
  Renderer.matrix_get matrix k c = Some (D k c).
Proof.
  intros Hinv Hk Hc. unfold Renderer.matrix_get.
  rewrite (Hinv k Hk). simpl. by rewrite row_spec_lookup.
Qed.

Lemma Inv_set i j matrix :
  Inv i j matrix -> i <= length a ->
  exists matrix', Renderer.matrix_set matrix i j (D i j) = Some matrix'
                  /\ Inv i (S j) matrix'.
Proof.
  intros Hinv Hi. unfold Renderer.matrix_set. rewrite (Hinv i Hi). simpl.
  eexists. split; [reflexivity|].
  assert (Hfill : forall jj, filled i jj i = jj)
    by (intros jj; unfold filled; by rewrite Nat.ltb_irrefl, Nat.eqb_refl).
  intros k Hk. destruct (decide (k = i)) as [->|Hne].
  - rewrite list_lookup_insert_eq
      by (apply lookup_lt_is_Some; rewrite (Hinv i Hi); eauto).
    by rewrite !Hfill, row_set_next.
  - rewrite list_lookup_insert_ne by done. rewrite (Hinv k Hk).
    do 2 f_equal. unfold filled. apply Nat.eqb_neq in Hne. by rewrite Hne.
Qed.

(** The matrix cell that the function returns is the reference distance:
    no step reads a hole or indexes a missing row. *)
Lemma levenshteinDistance_lev :
  Renderer.levenshteinDistance a b = Some (Renderer.lev (reverse a) (reverse b)).
Proof.
  unfold Renderer.levenshteinDistance.
  destruct (for_loop_invariant (Inv 0) 1 (length b)
              (fun j matrix => Renderer.matrix_set matrix 0 j j)
              (Renderer.init_matrix (length a))) as (m0 & -> & Hm0);
    [lia|apply Inv_init| |].
  { intros j matrix Hj Hinv.
    destruct (Inv_set 0 j matrix Hinv) as (matrix' & Hset & Hinv'); [lia|].
    rewrite D_0_l in Hset by lia. by exists matrix'. }
  cbn [mbind option_bind]. apply Inv_next_row in Hm0.
  match goal with
  | |- context [Renderer.for_loop 1 (length a) ?body m0] =>
      destruct (for_loop_invariant (fun i => Inv i 1) 1 (length a) body m0)
        as (m1 & -> & Hm1); [lia|done| |]
  end.
  { intros i matrix Hi Hinv.
    match goal with
    | |- context [Renderer.for_loop 1 (length b) ?body matrix] =>
        destruct (for_loop_invariant (Inv i) 1 (length b) body matrix)
          as (m' & Hrun & Hm'); [lia|done| |]
    end.
    - intros j mat Hj Hmat.
      assert (Hrow : forall k jj, k < i -> filled i jj k = S (length b))
        by (intros k jj Hlt; unfold filled; apply Nat.ltb_lt in Hlt; by rewrite Hlt).
      assert (Hcur : filled i j i = j)
        by (unfold filled; by rewrite Nat.ltb_irrefl, Nat.eqb_refl).
      rewrite (Inv_get i j mat (i - 1) j Hmat) by (rewrite ?Hrow; lia).
      cbn [mbind option_bind].
      rewrite (Inv_get i j mat i (j - 1) Hmat) by (rewrite ?Hcur; lia).
      cbn [mbind option_bind].
      rewrite (Inv_get i j mat (i - 1) (j - 1) Hmat) by (rewrite ?Hrow; lia).
      cbn [mbind option_bind].
      destruct i as [|i']; [lia|]. destruct j as [|j']; [lia|].
      replace (S i' - 1) with i' by lia. replace (S j' - 1) with j' by lia.
      rewrite <- D_step by lia. apply Inv_set; [done|lia].
    - exists m'. split; [done|]. by apply Inv_next_row. }
  cbn [mbind option_bind].
  rewrite (Inv_get (S (length a)) 1 m1 (length a) (length b) Hm1); [|lia|].
  - unfold D. by rewrite !take_ge by lia.
  - unfold filled. rewrite (proj2 (Nat.ltb_lt _ _)) by lia. lia.
Qed.

End Matrix.

(** ** What [levenshteinDistance] returns *)

Section LevenshteinDistance.
Context {A : Type} `{EqDecision A}.

Local Open Scope nat_scope.

(** X21: [levenshteinDistance] always returns a number, and its results
    obey the equations of the edit distance: against an empty string the
    distance is the length of the other string, and for two strings that
    end in [x] and [y] it is the least of the three distances to the
    shortened strings, each plus one, except that two equal last
    characters cost nothing. *)
Theorem levenshteinDistance_recurrence (a b : list A) (x y : A) :
  Renderer.levenshteinDistance [] b = Some (length b)
  /\ Renderer.levenshteinDistance a [] = Some (length a)
  /\ exists up left diagonal,
       Renderer.levenshteinDistance a (b ++ [y]) = Some up
       /\ Renderer.levenshteinDistance (a ++ [x]) b = Some left
       /\ Renderer.levenshteinDistance a b = Some diagonal
       /\ Renderer.levenshteinDistance (a ++ [x]) (b ++ [y])
          = Some (Nat.min (up + 1)
                    (Nat.min (left + 1)
                       (diagonal + if decide (x = y) then 0 else 1))).
Proof.
  rewrite !levenshteinDistance_lev, !reverse_snoc, reverse_nil, lev_nil_r.
  split_and!.
  - simpl. by rewrite length_reverse.
  - by rewrite length_reverse.
  - eexists _, _, _. split_and!; reflexivity.
Qed.

(** X22: the distance of a string to itself is 0, and only equal strings
    are at distance 0. *)
Theorem levenshteinDistance_zero (a b : list A) :
  Renderer.levenshteinDistance a a = Some 0
  /\ (Renderer.levenshteinDistance a b = Some 0 <-> a = b).
Proof.
  rewrite !levenshteinDistance_lev, lev_refl. split; [done|]. split.
  - intros [= Hzero]. apply lev_zero in Hzero.
    by apply (inj reverse) in Hzero.
  - intros ->. by rewrite lev_refl.
Qed.

(** X23: the distance does not depend on the order of its arguments. *)
Theorem levenshteinDistance_symmetric (a b : list A) :
  Renderer.levenshteinDistance a b = Renderer.levenshteinDistance b a.
Proof. by rewrite !levenshteinDistance_lev, lev_sym. Qed.

(** X24: the distance is at least the difference of the two lengths and
    at most the greater length. *)
Theorem levenshteinDistance_bounds (a b : list A) :
  exists d, Renderer.levenshteinDistance a b = Some d
    /\ d <= Nat.max (length a) (length b)
    /\ length a <= d + length b
    /\ length b <= d + length a.
Proof.
  rewrite levenshteinDistance_lev. eexists. split; [reflexivity|].
  pose proof (lev_upper (reverse a) (reverse b)).
  pose proof (lev_lower (reverse a) (reverse b)).
  rewrite !length_reverse in *. lia.
Qed.

End LevenshteinDistance.

(** ** The position history *)

Lemma filter_other_name (fileName : string) (l : list Renderer.Entry) :
  filter (fun entry => Renderer.name entry = fileName)
    (filter (fun entry => Renderer.name entry <> fileName) l) = [].
Proof.
  induction l as [|e l IH]; [done|].
  destruct (decide (Renderer.name e = fileName)) as [Heq|Hne].
  - by rewrite (filter_cons_False (fun entry => Renderer.name entry <> fileName))
      by (by intros Hx).
  - rewrite (filter_cons_True (fun entry => Renderer.name entry <> fileName)) by done.
    by rewrite filter_cons_False.
Qed.

(** What the update makes of the history: the other entries, in their
    order, then the new one; the oldest is dropped when there are more
    than fifty. *)
Lemma remember_shape history fileName current activePageIndex :
  let new := {| Renderer.name := fileName; Renderer.box := current;
                Renderer.page := activePageIndex |} in
  let others := filter (fun entry => Renderer.name entry <> fileName) history in
  (length others < 50 /\ Renderer.remember history fileName current activePageIndex
                             = others ++ [new])%nat
  \/ (50 <= length others /\ exists oldest rest,
        others = oldest :: rest
        /\ Renderer.remember history fileName current activePageIndex
           = rest ++ [new])%nat.
Proof.
  intros new others. unfold Renderer.remember. fold others. fold new.
  rewrite length_app. simpl.
  destruct (50 <? length others + 1)%nat eqn:E.
  - apply Nat.ltb_lt in E. right. split; [lia|].
    destruct others as [|oldest rest]; [simpl in E; lia|]. by exists oldest, rest.
  - apply Nat.ltb_ge in E. left. split; [lia|done].
Qed.

(** X25: after the update the history ends with the entry just made, and
    that entry is the only one with its file name. *)
Theorem remember_newest history fileName current activePageIndex :
  let new := {| Renderer.name := fileName; Renderer.box := current;
                Renderer.page := activePageIndex |} in
  last (Renderer.remember history fileName current activePageIndex) = Some new
  /\ filter (fun entry => Renderer.name entry = fileName)
       (Renderer.remember history fileName current activePageIndex) = [new].
Proof.
  intros new.
  pose proof (filter_other_name fileName history) as Hnone.
  destruct (remember_shape history fileName current activePageIndex)
    as [[_ ->]|(_ & oldest & rest & Hothers & ->)];
    (split; [apply last_snoc|]); rewrite filter_app.
  - rewrite Hnone. simpl. by rewrite filter_cons_True, filter_nil.
  - rewrite Hothers in Hnone.
    destruct (decide (Renderer.name oldest = fileName)) as [Heq|Hne].
    + by rewrite filter_cons_True in Hnone.
    + rewrite filter_cons_False in Hnone by done. rewrite Hnone. simpl.
      by rewrite filter_cons_True, filter_nil.
Qed.

(** X26: the update keeps a history of at most fifty entries at most
    fifty entries long, keeps file names unique, and leaves the history
    non-empty. *)
Theorem remember_invariants history fileName current activePageIndex :
  ((length history <= 50)%nat ->
     (length (Renderer.remember history fileName current activePageIndex) <= 50)%nat)
  /\ (NoDup (Renderer.name <$> history) ->
        NoDup (Renderer.name
                 <$> Renderer.remember history fileName current activePageIndex))
  /\ (1 <= length (Renderer.remember history fileName current activePageIndex))%nat.
Proof.
  set (others := filter (fun entry => Renderer.name entry <> fileName) history).
  pose proof (length_filter (fun entry => Renderer.name entry <> fileName) history)
    as Hlen. fold others in Hlen.
  assert (Hfresh : fileName ∉ Renderer.name <$> others).
  { intros (e & -> & He)%list_elem_of_fmap.
    apply list_elem_of_filter in He as [Hne _]. by apply Hne. }
  assert (Hnodup : NoDup (Renderer.name <$> history) ->
            NoDup (Renderer.name <$> others)).
  { intros Hh. apply (sublist_NoDup _ _ Hh). apply fmap_sublist, sublist_filter. }
  pose proof (remember_shape history fileName current activePageIndex) as Hshape.
  cbv zeta in Hshape. fold others in Hshape.
  destruct Hshape as [[Hshort ->]|(Hlong & oldest & rest & Hothers & ->)].
  - split_and!.
    + intros _. rewrite length_app. simpl. lia.
    + intros Hh. rewrite fmap_app. apply NoDup_app. split_and!.
      * by apply Hnodup.
      * intros name' Hin Hnew. apply list_elem_of_singleton in Hnew. simpl in Hnew.
        subst name'. by apply Hfresh.
      * apply NoDup_singleton.
    + rewrite length_app. simpl. lia.
  - rewrite Hothers in *. simpl in *. split_and!.
    + intros Hh. rewrite length_app. simpl. lia.
    + intros Hh. rewrite fmap_app. apply NoDup_app. split_and!.
      * apply Hnodup in Hh. by apply NoDup_cons in Hh as [_ Hrest].
      * intros name' Hin Hnew. apply list_elem_of_singleton in Hnew. simpl in Hnew.
        subst name'. apply Hfresh. by apply list_elem_of_further.
      * apply NoDup_singleton.
    + rewrite length_app. simpl. lia.
Qed.

(** X27: the file name of a path contains no separator, and the path is a
    directory part, empty or ending in a separator, followed by the file
    name. *)
Theorem fileNameOf_spec path :
  Renderer.has_separator (Renderer.fileNameOf path) = false
  /\ exists dir, path = dir +:+ Renderer.fileNameOf path
       /\ (dir = ""%string
           \/ exists d c, dir = d +:+ String c "" /\ Renderer.is_separator c = true).
Proof.
  induction path as [|c r (Hclean & dir & Hsplit & Hdir)]; [split; [done|by exists ""%string; eauto]|].
  cbn [Renderer.fileNameOf].
  destruct (Renderer.has_separator (String c r)) eqn:Hsep.
  - split; [done|]. exists (String c dir). split; [by rewrite Hsplit at 1|].
    right. destruct Hdir as [->|(d & c' & -> & Hc')].
    + exists ""%string, c. split; [done|].
      change (r = Renderer.fileNameOf r) in Hsplit. rewrite <- Hsplit in Hclean.
      cbn [Renderer.has_separator] in Hsep.
      rewrite Hclean in Hsep. by destruct (Renderer.is_separator c).
    + by exists (String c d), c'.
  - split; [done|]. exists ""%string. by eauto.
Qed.

(** ** The recall of a position *)

Lemma betterMatch_from (history : list Renderer.Entry) fileName best entry :
  entry ∈ history ->
  (forall e, fst best = Some e -> e ∈ history /\ Renderer.name e <> ""%string) ->
  forall e, fst (Renderer.betterMatch fileName best entry) = Some e ->
    e ∈ history /\ Renderer.name e <> ""%string.
Proof.
  intros Hentry Hbest e. unfold Renderer.betterMatch.
  case_bool_decide as Hname; [apply Hbest|].
  destruct (Renderer.getSimilarity _ _) as [score|]; [|apply Hbest].
  destruct (PrimFloat.ltb _ _); [|apply Hbest].
  by intros [= <-].
Qed.

Lemma bestMatch_from (history : list Renderer.Entry) fileName e score :
  Renderer.bestMatch history fileName = (Some e, score) ->
  e ∈ history /\ Renderer.name e <> ""%string.
Proof.
  unfold Renderer.bestMatch.
  assert (Hgen : forall l best,
    (forall x, x ∈ l -> x ∈ history) ->
    (forall e, fst best = Some e -> e ∈ history /\ Renderer.name e <> ""%string) ->
    forall e, fst (foldl (Renderer.betterMatch fileName) best l) = Some e ->
      e ∈ history /\ Renderer.name e <> ""%string).
  { induction l as [|x l IH]; intros best Hl Hbest; [done|].
    cbn [foldl]. apply IH.
    - intros y Hy. apply Hl. by apply list_elem_of_further.
    - apply betterMatch_from; [apply Hl, list_elem_of_here|done]. }
  intros Hrun. apply (Hgen history (None, 0%float)); [done|done|].
  by rewrite Hrun.
Qed.

(** X28: for a document with at least one page and a history whose page
    numbers are not negative, the page index after the recall indexes a
    page of the document, and the position is the current one, the
    default one or the one of a named entry of the history. *)
Theorem recallPosition_valid history path totalPages current :
  0 < totalPages ->
  (forall entries e, history = Some entries -> e ∈ entries -> 0 <= Renderer.page e) ->
  0 <= Renderer.activePage (Renderer.recallPosition history path totalPages current)
    < totalPages
  /\ (Renderer.position (Renderer.recallPosition history path totalPages current)
      = current
      \/ Renderer.position (Renderer.recallPosition history path totalPages current)
         = Renderer.defaultBox
      \/ exists entries e,
           history = Some entries /\ e ∈ entries
           /\ Renderer.name e <> ""%string
           /\ Renderer.position (Renderer.recallPosition history path totalPages current)
              = Renderer.box e).
Proof.
  intros Hpages Hpage. unfold Renderer.recallPosition.
  case_bool_decide; [simpl; split; [lia|by left]|].
  destruct history as [entries|]; [|simpl; split; [lia|by left]].
  destruct (Renderer.bestMatch entries _) as [[e|] score] eqn:Hbest;
    [|simpl; split; [lia|by right; left]].
  apply bestMatch_from in Hbest as [Hin Hname].
  destruct (PrimFloat.ltb _ score); [|simpl; split; [lia|by right; left]].
  simpl. split.
  - destruct (Renderer.page e <? totalPages) eqn:E; [|lia].
    apply Z.ltb_lt in E. specialize (Hpage entries e eq_refl Hin). lia.
  - right. right. by exists entries, e.
Qed.

(** ** Font size and locale *)

(** X29: [changeFontSize] moves the font size by [delta] or leaves it, and
    a font size between 8 and 72 stays between 8 and 72 whatever [delta]
    is, [NaN] included. *)
Theorem changeFontSize_range delta fontSize :
  PrimFloat.leb 8 fontSize = true ->
  PrimFloat.leb fontSize 72 = true ->
  PrimFloat.leb 8 (Renderer.changeFontSize delta fontSize) = true
  /\ PrimFloat.leb (Renderer.changeFontSize delta fontSize) 72 = true
  /\ (Renderer.changeFontSize delta fontSize = (fontSize + delta)%float
      \/ Renderer.changeFontSize delta fontSize = fontSize).
Proof.
  intros Hlow Hhigh. unfold Renderer.changeFontSize.
  destruct (PrimFloat.leb 8 (fontSize + delta)) eqn:E1;
    destruct (PrimFloat.leb (fontSize + delta) 72) eqn:E2; simpl; auto.
Qed.

(** X30: the locale the window starts with is one for which messages
    exist; it is the language part of the system language when that is
    [en], [cs] or [de], whatever the region, and [en] otherwise. *)
Theorem defaultLocale_supported language :
  Renderer.defaultLocale language ∈ Renderer.messages_locales
  /\ (forall sys region, sys ∈ Renderer.messages_locales ->
        Renderer.defaultLocale sys = sys
        /\ Renderer.defaultLocale (sys +:+ "-" +:+ region) = sys)
  /\ (Renderer.first_segment language ∉ Renderer.messages_locales ->
        Renderer.defaultLocale language = "en"%string).
Proof.
  unfold Renderer.defaultLocale, Renderer.messages_locales. split_and!.
  - case_bool_decide; [done|]. apply list_elem_of_here.
  - intros sys region Hsys.
    repeat (apply elem_of_cons in Hsys as [->|Hsys]); [done..|].
    by apply elem_of_nil in Hsys.
  - intros Hno. by rewrite bool_decide_eq_false_2.
Qed.

Section RendererExamples.

Lemma recallPosition_valid_witness :
  0 <= Renderer.activePage
         (Renderer.recallPosition
            (Some [{| Renderer.name := "report-2023.pdf";
                      Renderer.box := {| Renderer.x := 10; Renderer.y := 20;
                                         Renderer.w := 120; Renderer.h := 40 |};
                      Renderer.page := 2 |}])
            "/docs/report-2024.pdf" 3 Renderer.defaultBox)
    < 3
  /\ (Renderer.position
        (Renderer.recallPosition
           (Some [{| Renderer.name := "report-2023.pdf";
                     Renderer.box := {| Renderer.x := 10; Renderer.y := 20;
                                        Renderer.w := 120; Renderer.h := 40 |};
                     Renderer.page := 2 |}])
           "/docs/report-2024.pdf" 3 Renderer.defaultBox)
      = Renderer.defaultBox
      \/ Renderer.position
           (Renderer.recallPosition
              (Some [{| Renderer.name := "report-2023.pdf";
                        Renderer.box := {| Renderer.x := 10; Renderer.y := 20;
                                           Renderer.w := 120; Renderer.h := 40 |};
                        Renderer.page := 2 |}])
              "/docs/report-2024.pdf" 3 Renderer.defaultBox)
         = Renderer.defaultBox
      \/ exists entries e,
           Some [{| Renderer.name := "report-2023.pdf";
                    Renderer.box := {| Renderer.x := 10; Renderer.y := 20;
                                       Renderer.w := 120; Renderer.h := 40 |};
                    Renderer.page := 2 |}] = Some entries
           /\ e ∈ entries
           /\ Renderer.name e <> ""%string
           /\ Renderer.position
                (Renderer.recallPosition
                   (Some [{| Renderer.name := "report-2023.pdf";
                             Renderer.box := {| Renderer.x := 10; Renderer.y := 20;
                                                Renderer.w := 120; Renderer.h := 40 |};
                             Renderer.page := 2 |}])
                   "/docs/report-2024.pdf" 3 Renderer.defaultBox)
              = Renderer.box e).
Proof.
  apply (recallPosition_valid _ "/docs/report-2024.pdf" 3 Renderer.defaultBox).
  - lia.
  - intros entries e [= <-] He. apply list_elem_of_singleton in He as ->. simpl. lia.
Defined.

Example recall_similar_name :
  Renderer.recallPosition
    (Some [{| Renderer.name := "report-2023.pdf";
              Renderer.box := {| Renderer.x := 10; Renderer.y := 20;
                                 Renderer.w := 120; Renderer.h := 40 |};
              Renderer.page := 2 |}])
    "/docs/report-2024.pdf" 3 Renderer.defaultBox
  = {| Renderer.position := {| Renderer.x := 10; Renderer.y := 20;
                               Renderer.w := 120; Renderer.h := 40 |};
       Renderer.activePage := 2 |}.
Proof. vm_compute. reflexivity. Qed.

Lemma changeFontSize_range_witness :
  PrimFloat.leb 8 (Renderer.changeFontSize 2 14) = true
  /\ PrimFloat.leb (Renderer.changeFontSize 2 14) 72 = true
  /\ (Renderer.changeFontSize 2 14 = (14 + 2)%float
      \/ Renderer.changeFontSize 2 14 = 14%float).
Proof.
  apply (changeFontSize_range 2 14); reflexivity.
Defined.

End RendererExamples.
